(** * cothread.pv: the PV and PV_array value caches

    A shallow embedding of [cothread/pv.py].  Methods that mutate the
    object, raise or suspend the calling task are actions of a small
    state-and-exception monad; numpy arrays are lists updated by index,
    with the [IndexError] numpy raises out of range written out. *)

From Stdlib Require Import ZArith Lia.
From stdpp Require Import base list strings.

Local Open Scope Z_scope.

(** ** Effects: state, exceptions and a task that never resumes *)

Inductive exn : Type :=
| Timeout                 (* cothread.Timeout *)
| IndexError              (* numpy index out of bounds *)
| CAException (code : Z). (* a failure raised by catools *)

Inductive outcome (A : Type) : Type :=
| Return (a : A)
| Raise (e : exn)
| Hang.                   (* suspended with nothing left to wake the task *)
Arguments Return {A} a.
Arguments Raise {A} e.
Arguments Hang {A}.

Definition Eff (S A : Type) : Type := S -> outcome A * S.

Definition ret {S A} (a : A) : Eff S A := fun s => (Return a, s).
Definition raise {S A} (e : exn) : Eff S A := fun s => (Raise e, s).
Definition bind {S A B} (c : Eff S A) (k : A -> Eff S B) : Eff S B :=
  fun s =>
    match c s with
    | (Return a, s') => k a s'
    | (Raise e, s') => (Raise e, s')
    | (Hang, s') => (Hang, s')
    end.
Definition gets {S A} (f : S -> A) : Eff S A := fun s => (Return (f s), s).
Definition modify {S} (f : S -> S) : Eff S unit := fun s => (Return tt, f s).

Notation "x <- c ;; k" := (bind c (fun x => k))
  (at level 100, c at next level, right associativity).
Notation "c ;;; k" := (bind c (fun _ => k))
  (at level 100, right associativity).

(** The state an action leaves behind, whatever its outcome. *)
Definition exec {S A} (c : Eff S A) (s : S) : S := snd (c s).
Definition result {S A} (c : Eff S A) (s : S) : outcome A := fst (c s).

(** ** catools: what the caches consume from the Channel Access layer *)

Module catools.

(** A value as delivered by [camonitor] or returned by [caget] with
    [format = FORMAT_TIME]: the payload with its attributes.  [ok] is
    false for a disconnect or error report; the caches read the other
    attributes only after testing [ok]. *)
Record value (D T : Type) : Type := Value {
  ok : bool;
  data : D;
  timestamp : T;
  severity : Z;
  status : Z
}.
Arguments Value {D T}.
Arguments ok {D T}.
Arguments data {D T}.
Arguments timestamp {D T}.
Arguments severity {D T}.
Arguments status {D T}.

(** Modelled from the spec: the monitor handle returned by
    [catools.camonitor], whose [close] "releases one subscription;
    idempotent".  [released] counts how many times the subscription was
    handed back to the source. *)
Record Monitor : Type := { closed : bool; released : nat }.

Definition camonitor_one : Monitor := {| closed := false; released := 0 |}.

Definition close (m : Monitor) : Monitor :=
  if closed m then m
  else {| closed := true; released := S (released m) |}.

(** What one batched [caget] comes back with: the list of values, one
    per name, or the exception it raised. *)
Inductive caget_result (D T : Type) : Type :=
| Fetched (values : list (value D T))
| Failed (e : exn).
Arguments Fetched {D T}.
Arguments Failed {D T}.

End catools.

(** ** PV_array *)

Module PV_array.
Section PV_array.

(** [D] is what one slot of the waveform holds (a scalar of [dtype]
    when [count = 1], a row of [count] of them otherwise) and [zero] is
    what [numpy.zeros] fills it with; [T] is the type of timestamps.
    [L] is the type of user callbacks and [U] the part of the world a
    callback acts on: [call f p index u] is what [f(p, index)] makes of
    [u], the callback being handed the cache to read.  An index is a
    position the monitor or [enumerate] counts from 0. *)
Context {D T L U : Type}.
Variable zero : D.
Variable zero_time : T.

Inductive shape_t : Type :=
| Shape1 (n : nat)
| Shape2 (n : nat) (count : Z).

Record t : Type := Make {
  names : list string;
  on_update : option L;
  count : Z;
  shape : shape_t;
  __value : list D;
  seen : list bool;
  __ok : list bool;
  __timestamp : list T;
  __severity : list Z;
  __status : list Z;
  __monitors : list catools.Monitor
}.

(** The cache object together with the user state its callback acts on. *)
Record World : Type := { self : t; user : U }.

Variable call : L -> t -> nat -> U -> U.

Definition with_self (f : t -> t) (w : World) : World :=
  {| self := f (self w); user := user w |}.

Definition set___value (l : list D) (p : t) : t :=
  Make (names p) (on_update p) (count p) (shape p) l (seen p) (__ok p)
       (__timestamp p) (__severity p) (__status p) (__monitors p).
Definition set_seen (l : list bool) (p : t) : t :=
  Make (names p) (on_update p) (count p) (shape p) (__value p) l (__ok p)
       (__timestamp p) (__severity p) (__status p) (__monitors p).
Definition set___ok (l : list bool) (p : t) : t :=
  Make (names p) (on_update p) (count p) (shape p) (__value p) (seen p) l
       (__timestamp p) (__severity p) (__status p) (__monitors p).
Definition set___timestamp (l : list T) (p : t) : t :=
  Make (names p) (on_update p) (count p) (shape p) (__value p) (seen p)
       (__ok p) l (__severity p) (__status p) (__monitors p).
Definition set___severity (l : list Z) (p : t) : t :=
  Make (names p) (on_update p) (count p) (shape p) (__value p) (seen p)
       (__ok p) (__timestamp p) l (__status p) (__monitors p).
Definition set___status (l : list Z) (p : t) : t :=
  Make (names p) (on_update p) (count p) (shape p) (__value p) (seen p)
       (__ok p) (__timestamp p) (__severity p) l (__monitors p).
Definition set___monitors (l : list catools.Monitor) (p : t) : t :=
  Make (names p) (on_update p) (count p) (shape p) (__value p) (seen p)
       (__ok p) (__timestamp p) (__severity p) (__status p) l.

(** [array[index] = x]: numpy raises IndexError out of range and the
    array is left as it was. *)
Definition setitem {A} (arr : t -> list A) (set : list A -> t -> t)
    (index : nat) (x : A) : Eff World unit :=
  fun w =>
    if decide (index < length (arr (self w)))%nat
    then (Return tt, with_self (set (<[index:=x]> (arr (self w)))) w)
    else (Raise IndexError, w).

(** [array[index]] *)
Definition getitem {A} (arr : t -> list A) (index : nat) : Eff World A :=
  fun w =>
    match arr (self w) !! index with
    | Some x => (Return x, w)
    | None => (Raise IndexError, w)
    end.

Definition __init__ (pvs : list string) (count : Z) (on_update : option L)
    : t :=
  let n := length pvs in
  {| names := pvs;
     on_update := on_update;
     count := count;
     shape := if decide (count = 1) then Shape1 n else Shape2 n count;
     __value := replicate n zero;
     seen := replicate n false;
     __ok := replicate n false;
     __timestamp := replicate n zero_time;
     __severity := replicate n 0;
     __status := replicate n 0;
     __monitors := replicate n catools.camonitor_one |}.

Definition close : Eff World unit :=
  modify (with_self (fun p =>
    set___monitors (map catools.close (__monitors p)) p)).

Definition _update_one (value : catools.value D T) (index : nat)
    : Eff World unit :=
  setitem seen set_seen index true ;;;
  setitem __ok set___ok index (catools.ok value) ;;;
  if catools.ok value then
    setitem __value set___value index (catools.data value) ;;;
    setitem __timestamp set___timestamp index (catools.timestamp value) ;;;
    setitem __severity set___severity index (catools.severity value) ;;;
    setitem __status set___status index (catools.status value)
  else ret tt.

Definition _on_update (value : catools.value D T) (index : nat)
    : Eff World unit :=
  _update_one value index ;;;
  fun w =>
    match on_update (self w) with
    | Some f =>
        (Return tt, {| self := self w; user := call f (self w) index (user w) |})
    | None => (Return tt, w)
    end.

Definition get : Eff World (list D) := gets (fun w => __value (self w)).

(** [for index, value in enumerate(values)], from [index] on. *)
Fixpoint sync_loop (index : nat) (values : list (catools.value D T))
    : Eff World unit :=
  match values with
  | [] => ret tt
  | value :: rest =>
      s <- getitem seen index ;;
      (if negb s then _update_one value index else ret tt) ;;;
      sync_loop (S index) rest
  end.

(** [caget] is the batched read of the source; [fetched] is what it
    comes back with on this call. *)
Definition sync (fetched : catools.caget_result D T) : Eff World unit :=
  match fetched with
  | catools.Failed e => raise e
  | catools.Fetched values => sync_loop 0 values
  end.

Definition ok : Eff World (list bool) := gets (fun w => __ok (self w)).
Definition timestamp : Eff World (list T) :=
  gets (fun w => __timestamp (self w)).
Definition severity : Eff World (list Z) :=
  gets (fun w => __severity (self w)).
Definition status : Eff World (list Z) := gets (fun w => __status (self w)).

Definition all_ok : Eff World bool :=
  gets (fun w => forallb id (__ok (self w))).

End PV_array.
End PV_array.

(** ** cothread: the event a task waits on, and the scheduler's clock *)

Module cothread.
Section cothread.

Context {V S : Type}.

(** Modelled from the spec: [cothread.Event], the Blocking Primitive,
    "a condition-variable-like primitive storing a presence flag plus
    last value": [Some v] when signalled with [v], [None] when not. *)
Definition Event : Type := option V.

Definition Event_new : Event := None.
Definition Signal (value : V) (e : Event) : Event := Some value.
Definition Reset (e : Event) : Event := None.

(** Modelled from the spec: a timeout as [Wait] accepts it: [None] to
    wait for ever, a number of seconds from now, or the fixed point in
    time that [cothread.AbsTimeout] made of one. *)
Inductive timeout : Type :=
| Forever
| Seconds (seconds : Z)
| Deadline (time : Z).

Definition AbsTimeout (now : Z) (t : timeout) : timeout :=
  match t with
  | Forever => Forever
  | Seconds d => Deadline (now + d)
  | Deadline time => Deadline time
  end.

Definition expiry (now : Z) (t : timeout) : option Z :=
  match AbsTimeout now t with
  | Deadline time => Some time
  | _ => None
  end.

(** The task and its surroundings: the objects [obj] the task and the
    callbacks share, the scheduler's clock, and the updates the source
    has still to deliver, each with its time of arrival, in order. *)
Record Sched : Type := {
  obj : S;
  clock : Z;
  arrivals : list (Z * V)
}.

Variable event_of : S -> Event.
Variable callback : V -> S -> S.

Definition expired (until : option Z) (time : Z) : bool :=
  match until with
  | Some d => d <? time
  | None => false
  end.

(** Modelled from the spec: [Event.Wait], which "blocks the calling
    task until signalled or timeout elapses".  A signalled event
    returns its value at once.  Otherwise the task is suspended and the
    scheduler runs the source's callback on each update that arrives
    before the timeout expires; the wait ends with the first of them
    that leaves the event signalled, with [Timeout] when the time is
    up, and never when there is no expiry and nothing left to arrive. *)
Fixpoint wait_until (until : option Z) (queue : list (Z * V))
    (now : Z) (s : S) : outcome V * Sched :=
  match event_of s with
  | Some v => (Return v, {| obj := s; clock := now; arrivals := queue |})
  | None =>
      match queue with
      | [] =>
          match until with
          | Some d =>
              (Raise Timeout,
               {| obj := s; clock := Z.max now d; arrivals := [] |})
          | None => (Hang, {| obj := s; clock := now; arrivals := [] |})
          end
      | (time, v) :: rest =>
          if expired until time
          then (Raise Timeout,
                {| obj := s;
                   clock := Z.max now (default now until);
                   arrivals := queue |})
          else wait_until until rest (Z.max now time) (callback v s)
      end
  end.

Definition Wait (t : timeout) : Eff Sched V :=
  fun w => wait_until (expiry (clock w) t) (arrivals w) (clock w) (obj w).

(** An action on the shared objects, run by the task without suspending. *)
Definition atomically {A} (c : Eff S A) : Eff Sched A :=
  fun w =>
    let '(r, s) := c (obj w) in
    (r, {| obj := s; clock := clock w; arrivals := arrivals w |}).

End cothread.
Arguments Event : clear implicits.
Arguments Sched : clear implicits.
End cothread.

(** ** PV *)

Module PV.
Section PV.

(** [V] is the type of the values the monitor delivers (none of them is
    Python's [None]); [L] and [U] are as for [PV_array], with
    [call f p u] for [f(p)]. *)
Context {V L U : Type}.

Record t : Type := Make {
  name : string;
  __event : cothread.Event V;
  __value : option V;
  __monitor : catools.Monitor;
  on_update : option L;
  __deadline : cothread.timeout
}.

Record State : Type := { self : t; user : U }.

Definition World : Type := cothread.Sched V State.

Variable call : L -> t -> U -> U.

Definition with_self (f : t -> t) (s : State) : State :=
  {| self := f (self s); user := user s |}.

Definition set___event (e : cothread.Event V) (p : t) : t :=
  Make (name p) e (__value p) (__monitor p) (on_update p) (__deadline p).
Definition set___value (v : option V) (p : t) : t :=
  Make (name p) (__event p) v (__monitor p) (on_update p) (__deadline p).
Definition set___monitor (m : catools.Monitor) (p : t) : t :=
  Make (name p) (__event p) (__value p) m (on_update p) (__deadline p).

(** [timeout] defaults to [Seconds 5]; [now] is the clock at
    construction. *)
Definition __init__ (now : Z) (pv : string) (on_update : option L)
    (timeout : cothread.timeout) : t :=
  {| name := pv;
     __event := cothread.Event_new;
     __value := None;
     __monitor := catools.camonitor_one;
     on_update := on_update;
     __deadline := cothread.AbsTimeout now timeout |}.

Definition close : Eff State unit :=
  modify (with_self (fun p =>
    set___monitor (catools.close (__monitor p)) p)).

Definition _on_update (value : V) : Eff State unit :=
  modify (with_self (set___value (Some value))) ;;;
  modify (with_self (fun p =>
    set___event (cothread.Signal value (__event p)) p)) ;;;
  fun s =>
    match on_update (self s) with
    | Some f =>
        (Return tt, {| self := self s; user := call f (self s) (user s) |})
    | None => (Return tt, s)
    end.

(** The callback registered with [camonitor]: [_WeakMethod(self,
    '_on_update')]. *)
Definition _WeakMethod (value : V) (s : State) : State :=
  exec (_on_update value) s.

Definition reset : Eff World unit :=
  cothread.atomically (modify (with_self (fun p =>
    set___event (cothread.Reset (__event p)) p))).

Definition get_next (timeout : cothread.timeout) (reset : bool)
    : Eff World V :=
  (if reset then PV.reset else ret tt) ;;;
  cothread.Wait (fun s => __event (self s)) _WeakMethod timeout.

Definition get : Eff World V :=
  fun w =>
    match __value (self (cothread.obj w)) with
    | None => get_next (__deadline (self (cothread.obj w))) false w
    | Some value => (Return value, w)
    end.

(** The source delivers [value] while the task runs on. *)
Definition deliver (value : V) : Eff World unit :=
  cothread.atomically (_on_update value).

End PV.
End PV.

(** ** What the array cache's clients can observe and the histories it
  goes through *)

Module PV_array_model.
Section PV_array_model.

Context {D T L U : Type}.
Variable call : L -> @PV_array.t D T L -> nat -> U -> U.

Local Abbreviation t := (@PV_array.t D T L).
Local Abbreviation World := (@PV_array.World D T L U).

(** Everything the cache holds for slot [i]. *)
Definition slot (p : t) (i : nat)
    : option D * option bool * option bool * option T * option Z * option Z :=
  (PV_array.__value p !! i, PV_array.seen p !! i, PV_array.__ok p !! i,
   PV_array.__timestamp p !! i, PV_array.__severity p !! i,
   PV_array.__status p !! i).

(** All the arrays have one entry per name, as [__init__] makes them. *)
Definition wf (p : t) : Prop :=
  let n := length (PV_array.names p) in
  length (PV_array.__value p) = n /\ length (PV_array.seen p) = n /\
  length (PV_array.__ok p) = n /\ length (PV_array.__timestamp p) = n /\
  length (PV_array.__severity p) = n /\ length (PV_array.__status p) = n.

(** The state of a slot in the per-slot state machine. *)
Inductive slot_state : Type := Unseen | Valid | Invalid.

Definition state_of (p : t) (i : nat) : slot_state :=
  match PV_array.seen p !! i with
  | Some true =>
      match PV_array.__ok p !! i with
      | Some true => Valid
      | _ => Invalid
      end
  | _ => Unseen
  end.

(** The operations of the cache, as its clients and the source call
    them. *)
Inductive op : Type :=
| On_update (value : catools.value D T) (index : nat)
| Sync (fetched : catools.caget_result D T)
| Get
| Ok
| Timestamp
| Severity
| Status
| All_ok
| Close.

Definition step (o : op) (w : World) : World :=
  match o with
  | On_update value index => exec (PV_array._on_update call value index) w
  | Sync fetched => exec (PV_array.sync fetched) w
  | Get => exec PV_array.get w
  | Ok => exec PV_array.ok w
  | Timestamp => exec PV_array.timestamp w
  | Severity => exec PV_array.severity w
  | Status => exec PV_array.status w
  | All_ok => exec PV_array.all_ok w
  | Close => exec PV_array.close w
  end.

Definition run (ops : list op) (w : World) : World :=
  fold_left (fun w o => step o w) ops w.

(** The update, if any, that operation [o] delivers to slot [i] of a
    cache in state [p]: the monitor's for its own slot, the batched
    read's for a slot nothing has been seen of. *)
Definition delivered (o : op) (p : t) (i : nat)
    : option (catools.value D T) :=
  match o with
  | On_update value index =>
      if decide (index = i /\ (i < length (PV_array.seen p))%nat)
      then Some value else None
  | Sync (catools.Fetched values) =>
      match PV_array.seen p !! i with
      | Some false => values !! i
      | _ => None
      end
  | _ => None
  end.

(** The most recent update delivered to slot [i] in the course of
    [ops], started in [w]; [keep] selects the updates that count. *)
Fixpoint last_update (keep : catools.value D T -> bool) (ops : list op)
    (w : World) (i : nat) (last : option (catools.value D T))
    : option (catools.value D T) :=
  match ops with
  | [] => last
  | o :: rest =>
      last_update keep rest (step o w) i
        (match delivered o (PV_array.self w) i with
         | Some v => if keep v then Some v else last
         | None => last
         end)
  end.

(** What [_update_one] makes of a well-formed cache, in one piece. *)
Definition updated (v : catools.value D T) (index : nat) (p : t) : t :=
  if catools.ok v then
    PV_array.Make (PV_array.names p) (PV_array.on_update p)
      (PV_array.count p) (PV_array.shape p)
      (<[index:=catools.data v]> (PV_array.__value p))
      (<[index:=true]> (PV_array.seen p))
      (<[index:=true]> (PV_array.__ok p))
      (<[index:=catools.timestamp v]> (PV_array.__timestamp p))
      (<[index:=catools.severity v]> (PV_array.__severity p))
      (<[index:=catools.status v]> (PV_array.__status p))
      (PV_array.__monitors p)
  else
    PV_array.Make (PV_array.names p) (PV_array.on_update p)
      (PV_array.count p) (PV_array.shape p)
      (PV_array.__value p)
      (<[index:=true]> (PV_array.seen p))
      (<[index:=false]> (PV_array.__ok p))
      (PV_array.__timestamp p) (PV_array.__severity p)
      (PV_array.__status p) (PV_array.__monitors p).

(** What an update [v] makes of the contents of the slot it is for. *)
Definition upd_slot (v : catools.value D T)
    (s : option D * option bool * option bool * option T * option Z * option Z)
    : option D * option bool * option bool * option T * option Z * option Z :=
  let '(d, _, _, ts, sev, st) := s in
  if catools.ok v then
    (Some (catools.data v), Some true, Some true,
     Some (catools.timestamp v), Some (catools.severity v),
     Some (catools.status v))
  else (d, Some true, Some false, ts, sev, st).

(** The contents of a slot whose most recent update was [last] and
    whose most recent valid update was [last_valid], in a cache that
    [__init__] filled with [zero] and [zero_time]. *)
Definition tracked_slot (zero : D) (zero_time : T)
    (last last_valid : option (catools.value D T))
    : option D * option bool * option bool * option T * option Z * option Z :=
  let seen := match last with Some _ => true | None => false end in
  let ok := match last with Some v => catools.ok v | None => false end in
  match last_valid with
  | Some v =>
      (Some (catools.data v), Some seen, Some ok,
       Some (catools.timestamp v), Some (catools.severity v),
       Some (catools.status v))
  | None =>
      (Some zero, Some seen, Some ok, Some zero_time, Some 0, Some 0)
  end.

(** A cache as [__init__] makes it, with the user's state beside it. *)
Definition fresh (zero : D) (zero_time : T) (pvs : list string) (count : Z)
    (on_update : option L) (u : U) : World :=
  {| PV_array.self := PV_array.__init__ zero zero_time pvs count on_update;
     PV_array.user := u |}.

End PV_array_model.
End PV_array_model.

(** ** The single-value cache as a state machine *)

Module PV_model.
Section PV_model.

Context {V L U : Type}.
Variable call : L -> @PV.t V L -> U -> U.
(** The validity flag [value.ok] of a delivered value. *)
Variable ok : V -> bool.

Local Abbreviation World := (@PV.World V L U).

Inductive slot_state : Type := Unseen | Valid | Invalid.

Definition value_of (w : World) : option V :=
  PV.__value (PV.self (cothread.obj w)).

Definition state_of (w : World) : slot_state :=
  match value_of w with
  | None => Unseen
  | Some v => if ok v then Valid else Invalid
  end.

Inductive op : Type :=
| On_update (value : V)
| Get
| Get_next (timeout : cothread.timeout) (reset : bool)
| Reset
| Close.

Definition step (o : op) (w : World) : World :=
  match o with
  | On_update value => exec (PV.deliver call value) w
  | Get => exec (PV.get call) w
  | Get_next timeout reset => exec (PV.get_next call timeout reset) w
  | Reset => exec PV.reset w
  | Close => exec (cothread.atomically PV.close) w
  end.

(** The source delivers the updates [values] one after the other. *)
Definition deliver_all (values : list V) (w : World) : World :=
  fold_left (fun w v => exec (PV.deliver call v) w) values w.

Definition run (ops : list op) (w : World) : World :=
  fold_left (fun w o => step o w) ops w.

(** A cache made at time [now], in a task whose clock shows [clock] and
    whose source has [arrivals] to deliver. *)
Definition fresh (now : Z) (pv : string) (on_update : option L)
    (timeout : cothread.timeout) (u : U) (clock : Z)
    (arrivals : list (Z * V)) : World :=
  {| cothread.obj :=
       {| PV.self := PV.__init__ now pv on_update timeout; PV.user := u |};
     cothread.clock := clock;
     cothread.arrivals := arrivals |}.

(** The event, when signalled, holds the value the cache holds. *)
Definition coherent (s : @PV.State V L U) : Prop :=
  forall v, PV.__event (PV.self s) = Some v -> PV.__value (PV.self s) = Some v.

(** The updates the source delivered to the cache while [o] ran on
    [w], in order: the one [_on_update] is called with, or those a wait
    took off the pending arrivals for the callback. *)
Definition delivered (o : op) (w : World) : list V :=
  match o with
  | On_update value => [value]
  | _ =>
      snd <$> take (length (cothread.arrivals w) -
                    length (cothread.arrivals (step o w)))
                   (cothread.arrivals w)
  end.

(** All the updates delivered in the course of [ops], started in [w]. *)
Fixpoint deliveries (ops : list op) (w : World) : list V :=
  match ops with
  | [] => []
  | o :: rest => delivered o w ++ deliveries rest (step o w)
  end.

End PV_model.
End PV_model.

(** ** Concrete caches for the scenarios *)

Module Scenario.

(** Callbacks that count their calls. *)
Definition count_calls_array (f : unit) (p : @PV_array.t Z Z unit)
    (index : nat) (n : nat) : nat := S n.
Definition count_calls (f : unit) (p : @PV.t Z unit) (n : nat) : nat := S n.

(** A fresh array cache over two names, with a callback. *)
Definition two_slots : @PV_array.World Z Z unit nat :=
  {| PV_array.self := PV_array.__init__ 0 0 ["A"; "B"]%string 1 (Some tt);
     PV_array.user := 0%nat |}.

Definition reading (d time : Z) : catools.value Z Z :=
  catools.Value true d time 0 0.
(** A disconnect report; what it carries besides [ok] is never read. *)
Definition disconnected (time : Z) : catools.value Z Z :=
  catools.Value false 0 time 3 14.

(** A fresh single-value cache made at time 0 with the default timeout,
    and nothing on its way from the source. *)
Definition fresh_pv : @PV.World Z unit nat :=
  {| cothread.obj :=
       {| PV.self := PV.__init__ 0 "X"%string (Some tt) (cothread.Seconds 5);
          PV.user := 0%nat |};
     cothread.clock := 0;
     cothread.arrivals := [] |}.

End Scenario.

(** ** The monad's equations *)

Ltac split_ands := repeat match goal with |- _ /\ _ => split end.

Lemma exec_bind {S A B} (c : Eff S A) (k : A -> Eff S B) (s : S) :
exec (bind c k) s =
match result c s with
| Return a => exec (k a) (exec c s)
| _ => exec c s
end.
Proof.
unfold exec, result, bind. destruct (c s) as [[a|e|] s']; reflexivity.
Qed.

Lemma result_bind {S A B} (c : Eff S A) (k : A -> Eff S B) (s : S) :
result (bind c k) s =
match result c s with
| Return a => result (k a) (exec c s)
| Raise e => Raise e
| Hang => Hang
end.
Proof.
unfold exec, result, bind. destruct (c s) as [[a|e|] s']; reflexivity.
Qed.

(** ** Properties of PV_array *)

Module PV_array_facts.
Import PV_array_model.
Section PV_array_facts.

Context {D T L U : Type}.
Variable call : L -> @PV_array.t D T L -> nat -> U -> U.

Local Abbreviation t := (@PV_array.t D T L).
Local Abbreviation World := (@PV_array.World D T L U).
Implicit Types (w : World) (p : t) (v : catools.value D T).

Lemma update_one_in_range v index w :
  wf (PV_array.self w) ->
  (index < length (PV_array.names (PV_array.self w)))%nat ->
  PV_array._update_one v index w =
    (Return tt, {| PV_array.self := updated v index (PV_array.self w);
                   PV_array.user := PV_array.user w |}).
Proof.
  destruct w as [p u]. intros (H1 & H2 & H3 & H4 & H5 & H6) Hi.
  simpl in *.
  unfold PV_array._update_one, updated, bind, PV_array.setitem, ret. simpl.
  rewrite decide_True by lia. simpl.
  rewrite decide_True by lia. simpl.
  destruct (catools.ok v) eqn:Hok; simpl; [|reflexivity].
  rewrite decide_True by lia. simpl.
  rewrite decide_True by lia. simpl.
  rewrite decide_True by lia. simpl.
  rewrite decide_True by lia. simpl.
  reflexivity.
Qed.

Lemma update_one_out_of_range v index w :
  (length (PV_array.seen (PV_array.self w)) <= index)%nat ->
  PV_array._update_one v index w = (Raise IndexError, w).
Proof.
  intros Hi.
  unfold PV_array._update_one, bind, PV_array.setitem.
  rewrite decide_False by lia. reflexivity.
Qed.

Lemma updated_wf v index p : wf p -> wf (updated v index p).
Proof.
  unfold wf, updated. intros (H1 & H2 & H3 & H4 & H5 & H6).
  destruct (catools.ok v); simpl; rewrite ?length_insert; repeat split; assumption.
Qed.

(** [_update_one] never writes to a slot other than [index], however
    far it gets before an array refuses the index. *)
Lemma update_one_other v index w i :
  i <> index ->
  slot (PV_array.self (exec (PV_array._update_one v index) w)) i =
  slot (PV_array.self w) i.
Proof.
  intros Hne. destruct w as [p u].
  unfold exec, PV_array._update_one, bind, PV_array.setitem, ret, slot.
  simpl.
  repeat (case_decide; simpl; try reflexivity);
    destruct (catools.ok v); simpl;
    repeat (case_decide; simpl; try reflexivity);
    rewrite ?list_lookup_insert_ne by auto; reflexivity.
Qed.

Lemma update_one_user v index w :
  PV_array.user (exec (PV_array._update_one v index) w) = PV_array.user w.
Proof.
  destruct w as [p u].
  unfold exec, PV_array._update_one, bind, PV_array.setitem, ret.
  simpl.
  repeat (case_decide; simpl; try reflexivity);
    destruct (catools.ok v); simpl;
    repeat (case_decide; simpl; try reflexivity); reflexivity.
Qed.

Lemma on_update_self v index w :
  PV_array.self (exec (PV_array._on_update call v index) w) =
  PV_array.self (exec (PV_array._update_one v index) w).
Proof.
  unfold exec, PV_array._on_update, bind.
  destruct (PV_array._update_one v index w) as [[[]|e|] w']; simpl;
    try reflexivity.
  destruct (PV_array.on_update (PV_array.self w')); reflexivity.
Qed.

Lemma slot_updated_same v i p :
  wf p -> (i < length (PV_array.names p))%nat ->
  slot (updated v i p) i = upd_slot v (slot p i).
Proof.
  intros (H1 & H2 & H3 & H4 & H5 & H6) Hi.
  unfold slot, updated, upd_slot.
  destruct (catools.ok v); simpl;
    rewrite !list_lookup_insert_eq by lia; reflexivity.
Qed.

Lemma slot_updated_other v i j p :
  i <> j -> slot (updated v j p) i = slot p i.
Proof.
  intros Hne. unfold slot, updated.
  destruct (catools.ok v); simpl;
    rewrite !list_lookup_insert_ne by auto; reflexivity.
Qed.

Lemma names_updated v i p :
  PV_array.names (updated v i p) = PV_array.names p.
Proof. unfold updated. destruct (catools.ok v); reflexivity. Qed.

(** The loop of [sync], started at [index = k] on a well-formed cache:
    slot [i] is updated with the value fetched for it when the loop
    comes by it and nothing has been seen of it, and is left alone
    otherwise. *)
Lemma sync_loop_slots values : forall k w,
  wf (PV_array.self w) ->
  let w' := exec (PV_array.sync_loop k values) w in
  wf (PV_array.self w') /\
  PV_array.names (PV_array.self w') = PV_array.names (PV_array.self w) /\
  PV_array.user w' = PV_array.user w /\
  forall i,
    slot (PV_array.self w') i =
    match (if decide (k <= i)%nat then values !! (i - k)%nat else None) with
    | Some x =>
        if decide (PV_array.seen (PV_array.self w) !! i = Some false)
        then upd_slot x (slot (PV_array.self w) i)
        else slot (PV_array.self w) i
    | None => slot (PV_array.self w) i
    end.
Proof.
  induction values as [|x rest IH]; intros k w Hwf; cbv zeta; simpl.
  - unfold exec, ret; simpl. split_ands; try assumption; try reflexivity.
    intros i. case_decide; [rewrite lookup_nil|]; reflexivity.
  - unfold exec, bind, PV_array.getitem.
    destruct (PV_array.seen (PV_array.self w) !! k) as [[|]|] eqn:Hk; simpl.
    + (* seen already: the slot is passed over *)
      specialize (IH (S k) w Hwf). cbv zeta in IH. unfold exec in IH.
      destruct IH as (IH1 & IH2 & IH3 & IH4).
      split_ands; try assumption; try reflexivity.
      intros i. rewrite IH4.
      destruct (decide (i = k)) as [->|Hne].
      * rewrite decide_False by lia. rewrite decide_True by lia.
        replace (k - k)%nat with 0%nat by lia. simpl.
        rewrite decide_False by congruence. reflexivity.
      * destruct (decide (k <= i)%nat) as [Hle|Hgt].
        -- rewrite decide_True by lia.
           replace (i - k)%nat with (S (i - S k)) by lia. reflexivity.
        -- rewrite decide_False by lia. reflexivity.
    + (* unseen: the fetched value is stored *)
      assert (Hlt : (k < length (PV_array.names (PV_array.self w)))%nat).
      { apply lookup_lt_Some in Hk. destruct Hwf as (_ & H2 & _). lia. }
      rewrite (update_one_in_range x k w Hwf Hlt).
      set (w1 := {| PV_array.self := updated x k (PV_array.self w);
                    PV_array.user := PV_array.user w |}).
      assert (Hwf1 : wf (PV_array.self w1)) by (apply updated_wf; exact Hwf).
      specialize (IH (S k) w1 Hwf1). cbv zeta in IH. unfold exec in IH.
      destruct IH as (IH1 & IH2 & IH3 & IH4).
      split_ands; try assumption; try reflexivity.
      * rewrite IH2. apply names_updated.
      * intros i. rewrite IH4.
        destruct (decide (i = k)) as [->|Hne].
        -- rewrite decide_False by lia. rewrite decide_True by lia.
           replace (k - k)%nat with 0%nat by lia. simpl.
           rewrite decide_True by assumption.
           apply slot_updated_same; assumption.
        -- simpl PV_array.self.
           rewrite (slot_updated_other x i k) by assumption.
           assert (Hs : PV_array.seen (updated x k (PV_array.self w)) !! i =
                        PV_array.seen (PV_array.self w) !! i).
           { unfold updated. destruct (catools.ok x); simpl;
               apply list_lookup_insert_ne; auto. }
           rewrite Hs.
           destruct (decide (k <= i)%nat) as [Hle|Hgt].
           ++ rewrite decide_True by lia.
              replace (i - k)%nat with (S (i - S k)) by lia. reflexivity.
           ++ rewrite decide_False by lia. reflexivity.
    + (* past the end of [seen]: IndexError, nothing written *)
      split_ands; try assumption; try reflexivity.
      intros i.
      destruct (decide (k <= i)%nat) as [Hle|Hgt]; [|reflexivity].
      destruct ((x :: rest) !! (i - k)%nat); [|reflexivity].
      rewrite decide_False; [reflexivity|].
      intros Hi. apply lookup_lt_Some in Hi.
      apply lookup_ge_None in Hk. lia.
Qed.

Lemma getitem_exec {A} (arr : t -> list A) k w :
  exec (PV_array.getitem arr k) w = w.
Proof.
  unfold exec, PV_array.getitem.
  destruct (arr (PV_array.self w) !! k); reflexivity.
Qed.

Lemma getitem_result {A} (arr : t -> list A) k w :
  result (PV_array.getitem arr k) w =
  match arr (PV_array.self w) !! k with
  | Some x => Return x
  | None => Raise IndexError
  end.
Proof.
  unfold result, PV_array.getitem.
  destruct (arr (PV_array.self w) !! k); reflexivity.
Qed.

(** [sync] never writes to a slot that has been seen, whatever the
    state of the arrays. *)
Lemma sync_loop_frame values : forall k w i,
  PV_array.seen (PV_array.self w) !! i = Some true ->
  slot (PV_array.self (exec (PV_array.sync_loop k values) w)) i =
  slot (PV_array.self w) i.
Proof.
  induction values as [|x rest IH]; intros k w i Hi; simpl; [reflexivity|].
  rewrite exec_bind, getitem_result, getitem_exec.
  destruct (PV_array.seen (PV_array.self w) !! k) as [[|]|] eqn:Hk; simpl;
    [apply IH; assumption| |reflexivity].
  assert (Hne : i <> k) by congruence.
  pose proof (update_one_other x k w i Hne) as Hslot.
  rewrite exec_bind.
  destruct (result (PV_array._update_one x k) w); [|assumption..].
  rewrite IH; [assumption|].
  unfold slot in Hslot. congruence.
Qed.

(** C2: a per-slot update with a valid value sets [seen] and [ok] at
    [index] and overwrites the value, timestamp, severity and status
    there with the delivered ones; with an invalid value it sets [seen],
    clears [ok] and leaves the value and metadata arrays as they were.
    [_on_update] leaves the cache as [_update_one] does. *)
Theorem update_overwrites_only_when_valid v index w :
  wf (PV_array.self w) ->
  (index < length (PV_array.names (PV_array.self w)))%nat ->
  let p := PV_array.self w in
  let p' := PV_array.self (exec (PV_array._on_update call v index) w) in
  result (PV_array._on_update call v index) w = Return tt /\
  p' = PV_array.self (exec (PV_array._update_one v index) w) /\
  PV_array.seen p' !! index = Some true /\
  PV_array.__ok p' !! index = Some (catools.ok v) /\
  (catools.ok v = true ->
     PV_array.__value p' !! index = Some (catools.data v) /\
     PV_array.__timestamp p' !! index = Some (catools.timestamp v) /\
     PV_array.__severity p' !! index = Some (catools.severity v) /\
     PV_array.__status p' !! index = Some (catools.status v)) /\
  (catools.ok v = false ->
     PV_array.__ok p' !! index = Some false /\
     PV_array.__value p' = PV_array.__value p /\
     PV_array.__timestamp p' = PV_array.__timestamp p /\
     PV_array.__severity p' = PV_array.__severity p /\
     PV_array.__status p' = PV_array.__status p).
Proof.
  intros Hwf Hi p p'. subst p p'.
  rewrite on_update_self.
  pose proof (update_one_in_range v index w Hwf Hi) as Hu.
  destruct Hwf as (H1 & H2 & H3 & H4 & H5 & H6).
  split.
  { unfold result, PV_array._on_update, bind. rewrite Hu.
    destruct (PV_array.on_update _); reflexivity. }
  unfold exec. rewrite Hu. simpl. unfold updated.
  destruct (catools.ok v); simpl; split_ands; try reflexivity;
    try (intros; discriminate);
    try (intros _; split_ands; try reflexivity);
    apply list_lookup_insert_eq; lia.
Qed.

(** C3: [sync] leaves a slot that has been seen exactly as it was,
    whatever the batched read returned for it, and gives a slot that
    has not been seen what [_update_one] gives it with the value
    fetched for it. *)
Theorem sync_writes_unseen_slots_only fetched w i :
  (PV_array.seen (PV_array.self w) !! i = Some true ->
   slot (PV_array.self (exec (PV_array.sync fetched) w)) i =
   slot (PV_array.self w) i) /\
  (forall values v,
     fetched = catools.Fetched values ->
     wf (PV_array.self w) ->
     PV_array.seen (PV_array.self w) !! i = Some false ->
     values !! i = Some v ->
     slot (PV_array.self (exec (PV_array.sync fetched) w)) i =
     slot (PV_array.self (exec (PV_array._update_one v i) w)) i).
Proof.
  split.
  - intros Hi. destruct fetched as [values|e]; simpl.
    + apply sync_loop_frame; assumption.
    + reflexivity.
  - intros values v -> Hwf Hs Hv. simpl.
    destruct (sync_loop_slots values 0%nat w Hwf) as (_ & _ & _ & Hslots).
    rewrite Hslots. rewrite decide_True by lia.
    replace (i - 0)%nat with i by lia. rewrite Hv.
    rewrite decide_True by assumption.
    assert (Hlt : (i < length (PV_array.names (PV_array.self w)))%nat).
    { apply lookup_lt_Some in Hs. destruct Hwf as (_ & H2 & _). lia. }
    unfold exec. rewrite (update_one_in_range v i w Hwf Hlt). simpl.
    symmetry. apply slot_updated_same; assumption.
Qed.

Lemma slot_seen (p q : t) i :
  slot p i = slot q i -> PV_array.seen p !! i = PV_array.seen q !! i.
Proof. unfold slot. congruence. Qed.

(** Once every slot has been seen the loop of [sync] writes nothing:
    it passes over each slot, or stops at the end of [seen]. *)
Lemma sync_loop_all_seen values : forall k w,
  (forall i, (i < length (PV_array.seen (PV_array.self w)))%nat ->
             PV_array.seen (PV_array.self w) !! i = Some true) ->
  exec (PV_array.sync_loop k values) w = w.
Proof.
  induction values as [|x rest IH]; intros k w Hall; simpl; [reflexivity|].
  rewrite exec_bind, getitem_result, getitem_exec.
  destruct (PV_array.seen (PV_array.self w) !! k) as [[|]|] eqn:Hk; simpl.
  - rewrite exec_bind. unfold result, exec at 2, ret. simpl.
    apply IH; assumption.
  - rewrite Hall in Hk by (eapply lookup_lt_Some; exact Hk). discriminate.
  - reflexivity.
Qed.

(** C9: on a well-formed cache [sync] leaves [seen] set at every slot
    it was given a value for, valid or not; when the read returned a
    value for every slot all the flags are set afterwards, and a later
    [sync] changes nothing at all, whatever its read returns. *)
Theorem sync_marks_all_seen_then_is_inert values w :
  wf (PV_array.self w) ->
  let w' := exec (PV_array.sync (catools.Fetched values)) w in
  (forall i v, values !! i = Some v ->
     (i < length (PV_array.names (PV_array.self w)))%nat ->
     PV_array.seen (PV_array.self w') !! i = Some true) /\
  (length values = length (PV_array.names (PV_array.self w)) ->
     PV_array.seen (PV_array.self w') =
       replicate (length (PV_array.names (PV_array.self w))) true /\
     forall fetched, exec (PV_array.sync fetched) w' = w').
Proof.
  intros Hwf w'. subst w'. simpl.
  destruct (sync_loop_slots values 0%nat w Hwf) as (Hwf' & Hn & _ & Hslots).
  assert (Hseen : forall i v, values !! i = Some v ->
    (i < length (PV_array.names (PV_array.self w)))%nat ->
    PV_array.seen
      (PV_array.self (exec (PV_array.sync_loop 0 values) w)) !! i
    = Some true).
  { intros i v Hv Hi. specialize (Hslots i).
    rewrite decide_True in Hslots by lia.
    replace (i - 0)%nat with i in Hslots by lia. rewrite Hv in Hslots.
    assert (Hlen : (i < length (PV_array.seen (PV_array.self w)))%nat).
    { destruct Hwf as (_ & H2 & _). lia. }
    apply lookup_lt_is_Some in Hlen. destruct Hlen as [b Hb].
    case_decide as Hd.
    - unfold slot, upd_slot in Hslots.
      destruct (catools.ok v); congruence.
    - apply slot_seen in Hslots. rewrite Hslots, Hb.
      destruct b; congruence. }
  split; [exact Hseen|].
  intros Hlen.
  assert (Hall : forall i,
    (i < length (PV_array.seen
       (PV_array.self (exec (PV_array.sync_loop 0 values) w))))%nat ->
    PV_array.seen
      (PV_array.self (exec (PV_array.sync_loop 0 values) w)) !! i
    = Some true).
  { intros i Hi. destruct Hwf' as (_ & H2 & _).
    rewrite H2, Hn in Hi.
    destruct (lookup_lt_is_Some_2 values i) as [v Hv]; [lia|].
    eapply Hseen; eassumption. }
  split.
  - apply list_eq_same_length with
      (n := length (PV_array.names (PV_array.self w))).
    + apply length_replicate.
    + destruct Hwf' as (_ & H2 & _). rewrite H2, Hn. reflexivity.
    + intros i x y Hi Hx Hy.
      rewrite Hall in Hx.
      * apply lookup_replicate in Hy. destruct Hy. congruence.
      * destruct Hwf' as (_ & H2 & _). rewrite H2, Hn. exact Hi.
  - intros [values'|e]; simpl.
    + apply sync_loop_all_seen. exact Hall.
    + reflexivity.
Qed.

(** C10: a cache over no names at all reports [all_ok] true, and its
    [get] returns the empty array, with no update ever delivered. *)
Theorem empty_cache_is_all_ok (zero : D) (zero_time : T) (count : Z)
    (on_update : option L) (u : U) :
  let w := {| PV_array.self :=
                PV_array.__init__ zero zero_time [] count on_update;
              PV_array.user := u |} in
  PV_array.all_ok w = (Return true, w) /\
  PV_array.get w = (Return [], w).
Proof. split; reflexivity. Qed.

(** Every operation keeps the arrays one entry per name. *)
Lemma step_wf o w :
  wf (PV_array.self w) ->
  wf (PV_array.self (step call o w)) /\
  PV_array.names (PV_array.self (step call o w)) =
  PV_array.names (PV_array.self w).
Proof.
  intros Hwf. destruct o as [v j|[values|e]| | | | | | |]; simpl;
    try (split; [exact Hwf|reflexivity]).
  - rewrite on_update_self.
    destruct (decide (j < length (PV_array.names (PV_array.self w)))%nat)
      as [Hj|Hj].
    + unfold exec. rewrite (update_one_in_range v j w Hwf Hj). simpl.
      split; [apply updated_wf; exact Hwf|apply names_updated].
    + unfold exec. rewrite update_one_out_of_range.
      * split; [exact Hwf|reflexivity].
      * destruct Hwf as (_ & H2 & _). lia.
  - destruct (sync_loop_slots values 0%nat w Hwf) as (H1 & H2 & _).
    split; assumption.
Qed.

(** What one operation does to one slot: the update it delivers to the
    slot, if any, is applied; nothing else is. *)
Lemma step_slot o w i :
  wf (PV_array.self w) ->
  (i < length (PV_array.names (PV_array.self w)))%nat ->
  slot (PV_array.self (step call o w)) i =
  match delivered o (PV_array.self w) i with
  | Some v => upd_slot v (slot (PV_array.self w) i)
  | None => slot (PV_array.self w) i
  end.
Proof.
  intros Hwf Hi.
  assert (Hlen : length (PV_array.seen (PV_array.self w)) =
                 length (PV_array.names (PV_array.self w))).
  { destruct Hwf as (_ & H2 & _). exact H2. }
  destruct o as [v j|[values|e]| | | | | | |]; simpl; try reflexivity.
  - rewrite on_update_self.
    destruct (decide (j < length (PV_array.names (PV_array.self w)))%nat)
      as [Hj|Hj].
    + unfold exec. rewrite (update_one_in_range v j w Hwf Hj). simpl.
      case_decide as Hd.
      * destruct Hd as [-> _]. apply slot_updated_same; assumption.
      * apply slot_updated_other. intros ->. apply Hd. split; [reflexivity|lia].
    + unfold exec. rewrite update_one_out_of_range by lia.
      rewrite decide_False; [reflexivity|]. intros [-> _]. lia.
  - destruct (sync_loop_slots values 0%nat w Hwf) as (_ & _ & _ & Hslots).
    rewrite Hslots. rewrite decide_True by lia.
    replace (i - 0)%nat with i by lia.
    destruct (PV_array.seen (PV_array.self w) !! i) as [[|]|] eqn:Hs.
    + destruct (values !! i); [|reflexivity].
      rewrite decide_False by congruence. reflexivity.
    + destruct (values !! i); [|reflexivity].
      rewrite decide_True by reflexivity. reflexivity.
    + apply lookup_ge_None in Hs. lia.
Qed.

Lemma upd_tracked_slot (zero : D) (zero_time : T) v last last_valid :
  (forall x, last = Some x -> catools.ok x = true -> last_valid = Some x) ->
  upd_slot v (tracked_slot zero zero_time last last_valid) =
  tracked_slot zero zero_time (Some v)
    (if catools.ok v then Some v else last_valid).
Proof.
  intros Hco. unfold upd_slot, tracked_slot.
  destruct last_valid as [x|]; destruct (catools.ok v) eqn:Hok;
    rewrite ?Hok; reflexivity.
Qed.

(** The invariant behind C4, over any history from any well-formed
    state that agrees with the updates recorded so far. *)
Lemma run_tracks (zero : D) (zero_time : T) i ops : forall w last last_valid,
  wf (PV_array.self w) ->
  (i < length (PV_array.names (PV_array.self w)))%nat ->
  (forall x, last = Some x -> catools.ok x = true -> last_valid = Some x) ->
  slot (PV_array.self w) i = tracked_slot zero zero_time last last_valid ->
  let last' := last_update call (fun _ => true) ops w i last in
  let last_valid' := last_update call catools.ok ops w i last_valid in
  (forall x, last' = Some x -> catools.ok x = true -> last_valid' = Some x) /\
  slot (PV_array.self (run call ops w)) i =
  tracked_slot zero zero_time last' last_valid'.
Proof.
  induction ops as [|o rest IH]; intros w last last_valid Hwf Hi Hco Hslot;
    cbv zeta; simpl.
  - split; assumption.
  - destruct (step_wf o w Hwf) as [Hwf' Hn].
    apply IH; [exact Hwf'|rewrite Hn; exact Hi| |].
    + destruct (delivered o (PV_array.self w) i) as [v|]; [|exact Hco].
      intros x [= <-] Hok. rewrite Hok. reflexivity.
    + rewrite (step_slot o w i Hwf Hi), Hslot.
      destruct (delivered o (PV_array.self w) i) as [v|]; [|reflexivity].
      apply upd_tracked_slot. exact Hco.
Qed.

Lemma init_wf (zero : D) (zero_time : T) pvs count (on_update : option L) :
  wf (PV_array.__init__ zero zero_time pvs count on_update).
Proof. unfold wf; simpl. rewrite !length_replicate. tauto. Qed.

(** C4, as the code has it: in every state reached from [__init__],
    [seen[i]] tells whether slot [i] was ever delivered an update and
    [ok[i]] is the validity of the most recent one; the value,
    timestamp, severity and status of the slot are those of its most
    recent valid update (the initial zeros when there was none); so
    when [ok[i]] is set they are those of the most recent update, which
    was valid. *)
Theorem slot_tracks_last_valid_update (zero : D) (zero_time : T)
    (pvs : list string) (count : Z) (on_update : option L) (u : U)
    (ops : list op) (i : nat) :
  (i < length pvs)%nat ->
  let w0 := {| PV_array.self :=
                 PV_array.__init__ zero zero_time pvs count on_update;
               PV_array.user := u |} in
  let p := PV_array.self (run call ops w0) in
  let last := last_update call (fun _ => true) ops w0 i None in
  let last_valid := last_update call catools.ok ops w0 i None in
  (PV_array.seen p !! i = Some true <-> is_Some last) /\
  (forall v, last = Some v -> PV_array.__ok p !! i = Some (catools.ok v)) /\
  match last_valid with
  | Some v =>
      PV_array.__value p !! i = Some (catools.data v) /\
      PV_array.__timestamp p !! i = Some (catools.timestamp v) /\
      PV_array.__severity p !! i = Some (catools.severity v) /\
      PV_array.__status p !! i = Some (catools.status v)
  | None =>
      PV_array.__value p !! i = Some zero /\
      PV_array.__timestamp p !! i = Some zero_time /\
      PV_array.__severity p !! i = Some 0 /\
      PV_array.__status p !! i = Some 0
  end /\
  (PV_array.__ok p !! i = Some true ->
   exists v, last = Some v /\ last_valid = Some v /\ catools.ok v = true /\
             PV_array.__value p !! i = Some (catools.data v)).
Proof.
  intros Hi w0 p last last_valid.
  destruct (run_tracks zero zero_time i ops w0 None None) as [Hco Hslot].
  - apply init_wf.
  - simpl. exact Hi.
  - discriminate.
  - unfold slot, tracked_slot; simpl.
    rewrite !lookup_replicate_2 by exact Hi. reflexivity.
  - fold last last_valid in Hco, Hslot. fold p in Hslot.
    unfold slot, tracked_slot in Hslot.
    destruct last as [x|]; destruct last_valid as [y|];
      injection Hslot as H1 H2 H3 H4 H5 H6; split_ands;
      try assumption;
      try (split; [intros _; eexists; reflexivity|intros _; assumption]);
      try (split; [congruence|intros [? [=]]]);
      try (intros v [= <-]; assumption);
      try discriminate.
    + intros Hok. rewrite H3 in Hok. injection Hok as Hok.
      exists x. specialize (Hco x eq_refl Hok). injection Hco as ->.
      split_ands; try reflexivity; assumption.
    + intros Hok. rewrite H3 in Hok. injection Hok as Hok.
      specialize (Hco x eq_refl Hok). discriminate.
    + intros Hok. congruence.
    + intros Hok. congruence.
Qed.

Lemma update_one_seen v j w :
  PV_array.seen (PV_array.self (exec (PV_array._update_one v j) w)) =
  if decide (j < length (PV_array.seen (PV_array.self w)))%nat
  then <[j:=true]> (PV_array.seen (PV_array.self w))
  else PV_array.seen (PV_array.self w).
Proof.
  destruct w as [p u].
  unfold exec, PV_array._update_one, bind, PV_array.setitem, ret.
  simpl.
  case_decide; simpl; [|reflexivity].
  case_decide; simpl; [|reflexivity].
  destruct (catools.ok v); simpl; [|reflexivity].
  repeat (case_decide; simpl; try reflexivity).
Qed.

(** No operation clears a [seen] flag, in any state of the arrays. *)
Lemma step_seen_monotone o w i :
  PV_array.seen (PV_array.self w) !! i = Some true ->
  PV_array.seen (PV_array.self (step call o w)) !! i = Some true.
Proof.
  intros Hi. destruct o as [v j|[values|e]| | | | | | |]; simpl;
    try exact Hi.
  - rewrite on_update_self, update_one_seen.
    case_decide; [|exact Hi].
    destruct (decide (i = j)) as [->|Hne].
    + apply list_lookup_insert_eq. assumption.
    + rewrite list_lookup_insert_ne by auto. exact Hi.
  - rewrite (slot_seen _ _ _ (sync_loop_frame values 0%nat w i Hi)).
    exact Hi.
Qed.

(** The state machine of a slot: an operation moves it only by
    delivering an update to it, and then to [Valid] or [Invalid] as
    the update is. *)
Lemma step_state o w i :
  wf (PV_array.self w) ->
  (i < length (PV_array.names (PV_array.self w)))%nat ->
  state_of (PV_array.self (step call o w)) i =
  match delivered o (PV_array.self w) i with
  | Some v => if catools.ok v then Valid else Invalid
  | None => state_of (PV_array.self w) i
  end.
Proof.
  intros Hwf Hi. pose proof (step_slot o w i Hwf Hi) as Hslot.
  unfold state_of.
  destruct (delivered o (PV_array.self w) i) as [v|].
  - unfold slot, upd_slot in Hslot.
    destruct (catools.ok v); injection Hslot as _ -> -> _ _ _; reflexivity.
  - unfold slot in Hslot. injection Hslot as _ -> -> _ _ _. reflexivity.
Qed.

End PV_array_facts.
End PV_array_facts.

(** ** Properties of PV *)

Module PV_facts.
Import PV_model.
Section PV_facts.

Context {V L U : Type}.
Variable call : L -> @PV.t V L -> U -> U.

Local Abbreviation World := (@PV.World V L U).
Local Abbreviation State := (@PV.State V L U).
Implicit Types (w : World) (s : State) (v : V).

(** What [_on_update] leaves behind: the value stored and signalled,
    and the user's callback run on the cache that holds it. *)
Lemma on_update_exec v s :
  PV._on_update call v s =
  let p := PV.Make (PV.name (PV.self s)) (Some v) (Some v)
             (PV.__monitor (PV.self s)) (PV.on_update (PV.self s))
             (PV.__deadline (PV.self s)) in
  (Return tt,
   {| PV.self := p;
      PV.user := match PV.on_update (PV.self s) with
                 | Some f => call f p (PV.user s)
                 | None => PV.user s
                 end |}).
Proof.
  destruct s as [[n e x m l d] u]. unfold PV._on_update, bind, modify.
  simpl. destruct l; reflexivity.
Qed.

Lemma deliver_exec v w :
  PV.deliver call v w =
  (Return tt,
   {| cothread.obj := exec (PV._on_update call v) (cothread.obj w);
      cothread.clock := cothread.clock w;
      cothread.arrivals := cothread.arrivals w |}).
Proof.
  unfold PV.deliver, cothread.atomically, exec.
  rewrite on_update_exec. reflexivity.
Qed.

Lemma deliver_value v w : value_of (exec (PV.deliver call v) w) = Some v.
Proof.
  unfold exec at 1. rewrite deliver_exec. unfold value_of, exec. simpl.
  rewrite on_update_exec. reflexivity.
Qed.

Lemma deliver_event v w :
  PV.__event (PV.self (cothread.obj (exec (PV.deliver call v) w))) = Some v.
Proof.
  unfold exec at 1. rewrite deliver_exec. unfold exec. simpl.
  rewrite on_update_exec. reflexivity.
Qed.

Lemma get_present v w : value_of w = Some v -> PV.get call w = (Return v, w).
Proof. unfold value_of, PV.get. intros ->. reflexivity. Qed.

Lemma deliver_all_snoc values v w :
  deliver_all call (values ++ [v]) w =
  exec (PV.deliver call v) (deliver_all call values w).
Proof. unfold deliver_all. rewrite fold_left_app. reflexivity. Qed.

Lemma wait_signalled (event_of : State -> cothread.Event V)
    (callback : V -> State -> State) until queue now s v :
  event_of s = Some v ->
  cothread.wait_until event_of callback until queue now s =
  (Return v,
   {| cothread.obj := s; cothread.clock := now;
      cothread.arrivals := queue |}).
Proof. intros H. destruct queue; simpl; rewrite H; reflexivity. Qed.

Lemma reset_exec w :
  exec PV.reset w =
  {| cothread.obj :=
       PV.with_self (PV.set___event None) (cothread.obj w);
     cothread.clock := cothread.clock w;
     cothread.arrivals := cothread.arrivals w |}.
Proof. reflexivity. Qed.

(** C5: with the event reset and no update due, [get_next] with a
    timeout of zero fails with [Timeout] and the stored value is what it
    was; with one update delivered after the reset, [get_next] returns
    that update's value, whether the update came before the call or
    while the task was waiting. *)
Theorem reset_then_get_next w :
  (Forall (fun a => cothread.clock w < a.1) (cothread.arrivals w) ->
   let w1 := exec PV.reset w in
   result (PV.get_next call (cothread.Seconds 0) false) w1 = Raise Timeout /\
   value_of (exec (PV.get_next call (cothread.Seconds 0) false) w1) =
   value_of w) /\
  (forall v timeout,
     let w2 := exec (PV.deliver call v) (exec PV.reset w) in
     PV.get_next call timeout false w2 = (Return v, w2)) /\
  (forall v time rest seconds,
     cothread.arrivals w = (time, v) :: rest ->
     time <= cothread.clock w + seconds ->
     result (PV.get_next call (cothread.Seconds seconds) false)
       (exec PV.reset w) = Return v).
Proof.
  split_ands.
  - intros Hlate w1. subst w1. rewrite reset_exec.
    unfold result, exec, PV.get_next, bind, ret, cothread.Wait, value_of.
    simpl.
    destruct (cothread.arrivals w) as [|[time v] rest] eqn:Hq; simpl.
    + split; reflexivity.
    + apply Forall_cons_1 in Hlate. destruct Hlate as [Hlate _].
      simpl in Hlate.
      replace (cothread.clock w + 0 <? time) with true
        by (symmetry; apply Z.ltb_lt; lia).
      split; reflexivity.
  - intros v timeout w2.
    unfold PV.get_next, bind, ret, cothread.Wait.
    rewrite (wait_signalled _ _ _ _ _ _ v) by apply deliver_event.
    destruct w2; reflexivity.
  - intros v time rest seconds Hq Hdue. rewrite reset_exec.
    unfold result, PV.get_next, bind, ret, cothread.Wait. simpl.
    rewrite Hq. simpl.
    replace (cothread.clock w + seconds <? time) with false
      by (symmetry; apply Z.ltb_ge; lia).
    rewrite (wait_signalled _ _ _ _ _ _ v); [reflexivity|].
    unfold PV._WeakMethod, exec. rewrite on_update_exec. reflexivity.
Qed.

(** A wait never takes the stored value away: the callbacks it runs
    only store values. *)
Lemma wait_keeps_value until queue : forall now s,
  is_Some (PV.__value (PV.self s)) ->
  is_Some (PV.__value (PV.self (cothread.obj (snd
    (cothread.wait_until (fun s => PV.__event (PV.self s))
       (PV._WeakMethod call) until queue now s))))).
Proof.
  induction queue as [|[time v] rest IH]; intros now s Hs; simpl.
  - destruct (PV.__event (PV.self s)); [exact Hs|].
    destruct until; exact Hs.
  - destruct (PV.__event (PV.self s)); [exact Hs|].
    destruct (cothread.expired until time); [exact Hs|].
    apply IH. unfold PV._WeakMethod, exec. rewrite on_update_exec.
    simpl. eexists; reflexivity.
Qed.

(** No operation of the single-value cache takes the stored value
    away, and an update replaces it. *)
Lemma step_keeps_value (o : op) w :
  is_Some (value_of w) -> is_Some (value_of (step call o w)).
Proof.
  intros Hs. destruct o as [v| |timeout r| |]; simpl.
  - rewrite deliver_value. eexists; reflexivity.
  - destruct Hs as [x Hx]. unfold exec. rewrite (get_present x w Hx).
    simpl. rewrite Hx. eexists; reflexivity.
  - unfold exec, PV.get_next, bind, cothread.Wait, value_of.
    destruct r; simpl; apply wait_keeps_value; exact Hs.
  - exact Hs.
  - exact Hs.
Qed.

(** What a wait does to the cache: it takes a prefix [pre] off the
    pending arrivals, and the value stored at the end is that of the last
    of them, or the one stored before when it took none; the deadline
    the cache was made with is not touched. *)
Lemma wait_takes_prefix until queue : forall now s,
  let r := cothread.wait_until (fun s => PV.__event (PV.self s))
             (PV._WeakMethod call) until queue now s in
  PV.__deadline (PV.self (cothread.obj (snd r))) = PV.__deadline (PV.self s) /\
  exists pre,
    queue = pre ++ cothread.arrivals (snd r) /\
    PV.__value (PV.self (cothread.obj (snd r))) =
    match last pre with
    | Some a => Some a.2
    | None => PV.__value (PV.self s)
    end.
Proof.
  induction queue as [|[time u] rest IH]; intros now s; cbv zeta; simpl.
  - destruct (PV.__event (PV.self s)); [|destruct until]; simpl;
      (split; [reflexivity|exists []; split; reflexivity]).
  - destruct (PV.__event (PV.self s)); simpl;
      [split; [reflexivity|exists []; split; reflexivity]|].
    destruct (cothread.expired until time); simpl;
      [split; [reflexivity|exists []; split; reflexivity]|].
    specialize (IH (Z.max now time) (PV._WeakMethod call u s)).
    cbv zeta in IH. destruct IH as (Hd & pre & Hq & Hv).
    assert (Hs : PV.__deadline (PV.self (PV._WeakMethod call u s)) =
                 PV.__deadline (PV.self s) /\
                 PV.__value (PV.self (PV._WeakMethod call u s)) = Some u).
    { unfold PV._WeakMethod, exec. rewrite on_update_exec.
      split; reflexivity. }
    destruct Hs as [Hsd Hsv]. split; [congruence|].
    exists ((time, u) :: pre). split.
    + simpl. f_equal. exact Hq.
    + rewrite Hv, last_cons, Hsv. destruct (last pre); reflexivity.
Qed.

Lemma take_taken {A} (pre rest : list A) :
  take (length (pre ++ rest) - length rest) (pre ++ rest) = pre.
Proof. apply take_app_length'. rewrite length_app. lia. Qed.

(** Every operation leaves the cache holding the last update delivered
    while it ran, or what it held when none was. *)
Lemma step_value (o : op) w :
  value_of (step call o w) =
  match last (delivered call o w) with
  | Some v => Some v
  | None => value_of w
  end.
Proof.
  assert (Hwait : forall timeout w0,
    cothread.arrivals w0 = cothread.arrivals w ->
    let w' := exec (cothread.Wait (fun s => PV.__event (PV.self s))
                      (PV._WeakMethod call) timeout) w0 in
    value_of w' =
    match last (snd <$> take (length (cothread.arrivals w) -
                              length (cothread.arrivals w'))
                             (cothread.arrivals w)) with
    | Some v => Some v
    | None => value_of w0
    end).
  { intros timeout w0 Hq w'. subst w'. unfold exec, cothread.Wait, value_of.
    pose proof (wait_takes_prefix
                  (cothread.expiry (cothread.clock w0) timeout)
                  (cothread.arrivals w0) (cothread.clock w0)
                  (cothread.obj w0)) as H.
    cbv zeta in H.
    set (w' := snd (cothread.wait_until _ _ _ _ _ _)) in *.
    destruct H as (_ & pre & Hpre & Hv).
    rewrite Hv, <- Hq, Hpre, take_taken, fmap_last.
    destruct (last pre); reflexivity. }
  destruct o as [v| |timeout r| |]; simpl.
  - apply deliver_value.
  - unfold exec, PV.get.
    destruct (PV.__value (PV.self (cothread.obj w))) as [x|] eqn:Hx; simpl.
    + rewrite Nat.sub_diag, take_0. reflexivity.
    + unfold PV.get_next, bind, ret.
      apply (Hwait _ w eq_refl).
  - unfold exec, PV.get_next, bind.
    destruct r; simpl.
    + apply (Hwait timeout (exec PV.reset w) eq_refl).
    + apply (Hwait timeout w eq_refl).
  - rewrite Nat.sub_diag, take_0. reflexivity.
  - rewrite Nat.sub_diag, take_0. reflexivity.
Qed.

Lemma run_value ops : forall w,
  value_of (run call ops w) =
  match last (deliveries call ops w) with
  | Some v => Some v
  | None => value_of w
  end.
Proof.
  induction ops as [|o rest IH]; intros w; simpl; [reflexivity|].
  rewrite IH, last_app, step_value.
  destruct (last (deliveries call rest (step call o w))); reflexivity.
Qed.

(** No operation changes the deadline the cache was made with. *)
Lemma step_deadline (o : op) w :
  PV.__deadline (PV.self (cothread.obj (step call o w))) =
  PV.__deadline (PV.self (cothread.obj w)).
Proof.
  assert (Hwait : forall timeout w0,
    PV.__deadline (PV.self (cothread.obj
      (exec (cothread.Wait (fun s => PV.__event (PV.self s))
               (PV._WeakMethod call) timeout) w0))) =
    PV.__deadline (PV.self (cothread.obj w0))).
  { intros timeout w0. unfold exec, cothread.Wait.
    apply wait_takes_prefix. }
  destruct o as [v| |timeout r| |]; simpl.
  - unfold exec. rewrite deliver_exec. simpl. unfold exec.
    rewrite on_update_exec. reflexivity.
  - unfold exec at 1, PV.get.
    destruct (PV.__value (PV.self (cothread.obj w))); [reflexivity|].
    unfold PV.get_next, bind, ret. apply Hwait.
  - unfold exec at 1, PV.get_next, bind.
    destruct r; simpl; [|apply Hwait].
    exact (Hwait timeout (exec PV.reset w)).
  - reflexivity.
  - reflexivity.
Qed.

Lemma run_deadline ops : forall w,
  PV.__deadline (PV.self (cothread.obj (run call ops w))) =
  PV.__deadline (PV.self (cothread.obj w)).
Proof.
  induction ops as [|o rest IH]; intros w; simpl; [reflexivity|].
  rewrite IH. apply step_deadline.
Qed.

(** C1: whenever the cache holds a value, [get] returns it at once and
    leaves everything as it is.  After the [i]-th of a sequence of
    updates the value held, and returned, is the [i]-th delivered; and
    so it is over any history of updates, resets, closes, [get]s and
    [get_next]s, the updates delivered during a wait counted with the
    others: [get] returns the most recent of them all.  The deadline is
    the one [__init__] made of its timeout at the time of construction,
    whatever was called since, and with no value yet [get] is [get_next]
    with that deadline. *)
Theorem get_returns_latest_update :
  (forall w v, value_of w = Some v -> PV.get call w = (Return v, w)) /\
  (forall w (updates : list V) (i : nat) v,
     updates !! i = Some v ->
     let w' := deliver_all call (take (S i) updates) w in
     value_of w' = Some v /\ PV.get call w' = (Return v, w')) /\
  (forall w (ops : list op) (updates : list V) v,
     deliveries call ops w = updates ++ [v] ->
     let w' := run call ops w in
     value_of w' = Some v /\ PV.get call w' = (Return v, w')) /\
  (forall now pv on_update timeout (u : U) clock arrivals (ops : list op),
     let w := run call ops
                (fresh now pv on_update timeout u clock arrivals) in
     PV.__deadline (PV.self (cothread.obj w)) =
       cothread.AbsTimeout now timeout /\
     (value_of w = None ->
      PV.get call w =
      PV.get_next call (cothread.AbsTimeout now timeout) false w)).
Proof.
  split_ands.
  - intros w v. apply get_present.
  - intros w updates i v Hv w'. subst w'.
    rewrite (take_S_r _ _ _ Hv), deliver_all_snoc.
    split; [|apply get_present]; apply deliver_value.
  - intros w ops updates v Hd w'. subst w'.
    assert (Hv : value_of (run call ops w) = Some v).
    { rewrite run_value, Hd, last_snoc. reflexivity. }
    split; [exact Hv|apply get_present; exact Hv].
  - intros now pv on_update timeout u clock arrivals ops w.
    assert (Hd : PV.__deadline (PV.self (cothread.obj w)) =
                 cothread.AbsTimeout now timeout).
    { subst w. rewrite run_deadline. reflexivity. }
    split; [exact Hd|].
    unfold value_of, PV.get. intros ->. rewrite Hd. reflexivity.
Qed.

End PV_facts.
End PV_facts.

(** ** Properties the two caches share *)

Module Caches_facts.
Section Caches_facts.

Context {D T V L U : Type}.
Variable call_array : L -> @PV_array.t D T L -> nat -> U -> U.
Variable call : L -> @PV.t V L -> U -> U.
Variable ok : V -> bool.

(** C6: in the array cache no operation clears a [seen] flag, and an
    operation moves a slot only by delivering an update to it, to
    [Valid] or [Invalid] as the update is; in the single-value cache no
    operation takes the stored value away, and an update leaves the
    cache [Valid] or [Invalid] as the update is.  So no slot ever
    returns to [Unseen]. *)
Theorem slots_never_return_to_unseen :
  (forall (o : PV_array_model.op) (w : @PV_array.World D T L U) (i : nat),
     PV_array.seen (PV_array.self w) !! i = Some true ->
     PV_array.seen (PV_array.self (PV_array_model.step call_array o w)) !! i
     = Some true) /\
  (forall (o : PV_array_model.op) (w : @PV_array.World D T L U) (i : nat),
     PV_array_model.wf (PV_array.self w) ->
     (i < length (PV_array.names (PV_array.self w)))%nat ->
     PV_array_model.state_of
       (PV_array.self (PV_array_model.step call_array o w)) i =
     match PV_array_model.delivered o (PV_array.self w) i with
     | Some v =>
         if catools.ok v then PV_array_model.Valid
         else PV_array_model.Invalid
     | None => PV_array_model.state_of (PV_array.self w) i
     end) /\
  (forall (o : PV_model.op) (w : @PV.World V L U),
     PV_model.state_of ok w <> PV_model.Unseen ->
     PV_model.state_of ok (PV_model.step call o w) <> PV_model.Unseen) /\
  (forall (v : V) (w : @PV.World V L U),
     PV_model.state_of ok (PV_model.step call (PV_model.On_update v) w) =
     if ok v then PV_model.Valid else PV_model.Invalid).
Proof.
  split_ands.
  - intros o w i. apply PV_array_facts.step_seen_monotone.
  - intros o w i. apply PV_array_facts.step_state.
  - intros o w Hs.
    assert (Hv : is_Some (PV_model.value_of w)).
    { unfold PV_model.state_of in Hs.
      destruct (PV_model.value_of w); [eexists; reflexivity|congruence]. }
    apply (PV_facts.step_keeps_value call o) in Hv.
    destruct Hv as [x Hx]. unfold PV_model.state_of. rewrite Hx.
    destruct (ok x); discriminate.
  - intros v w. unfold PV_model.state_of. simpl.
    rewrite PV_facts.deliver_value. reflexivity.
Qed.

Lemma monitor_close_idempotent (m : catools.Monitor) :
  catools.close (catools.close m) = catools.close m.
Proof. unfold catools.close. destruct m as [[|] n]; reflexivity. Qed.

(** C7: for both caches [close] raises nothing, the first time or
    again; a second [close] changes nothing, so no subscription is
    released twice: a cache closed twice has released each of its
    subscriptions once; and [close] leaves the cached values alone. *)
Theorem close_is_idempotent :
  (forall s : @PV.State V L U,
     result PV.close s = Return tt /\
     result PV.close (exec PV.close s) = Return tt /\
     exec PV.close (exec PV.close s) = exec PV.close s /\
     PV.__value (PV.self (exec PV.close s)) = PV.__value (PV.self s) /\
     PV.__event (PV.self (exec PV.close s)) = PV.__event (PV.self s)) /\
  (forall now pv on_update timeout (u : U),
     catools.released (PV.__monitor (PV.self
       (exec PV.close (exec PV.close
          {| PV.self := @PV.__init__ V L now pv on_update timeout;
             PV.user := u |})))) = 1%nat) /\
  (forall w : @PV_array.World D T L U,
     result PV_array.close w = Return tt /\
     result PV_array.close (exec PV_array.close w) = Return tt /\
     exec PV_array.close (exec PV_array.close w) = exec PV_array.close w /\
     forall i, PV_array_model.slot (PV_array.self (exec PV_array.close w)) i
               = PV_array_model.slot (PV_array.self w) i) /\
  (forall zero zero_time pvs count on_update (u : U),
     Forall (fun m => catools.released m = 1%nat)
       (PV_array.__monitors (PV_array.self
          (exec PV_array.close (exec PV_array.close
             {| PV_array.self :=
                  @PV_array.__init__ D T L zero zero_time pvs count on_update;
                PV_array.user := u |}))))).
Proof.
  split_ands.
  - intros [p u]. split_ands; try reflexivity.
    unfold exec, PV.close, modify, PV.with_self, PV.set___monitor. simpl.
    rewrite monitor_close_idempotent. reflexivity.
  - reflexivity.
  - intros [p u]. split_ands; try reflexivity.
    unfold exec, PV_array.close, modify, PV_array.with_self,
      PV_array.set___monitors. simpl.
    rewrite map_map.
    rewrite (map_ext _ _ monitor_close_idempotent). reflexivity.
  - intros zero zero_time pvs count on_update u. simpl.
    rewrite map_map. apply Forall_forall. intros m Hm.
    apply list_elem_of_In, in_map_iff in Hm.
    destruct Hm as (m0 & <- & Hm0).
    apply list_elem_of_In, elem_of_replicate in Hm0.
    destruct Hm0 as [-> _]. reflexivity.
Qed.

End Caches_facts.
End Caches_facts.

(** ** The scenarios *)

Module Scenario_facts.
Import Scenario.

(** The spec's scenario for C2: over [["A"; "B"]], after readings for
    both, B disconnects: [ok] is [[true; false]], [all_ok] is false and
    [values[1]] is still B's last reading. *)
Lemma update_overwrites_only_when_valid_witness :
  let w := PV_array_model.run count_calls_array
             [PV_array_model.On_update (reading 5 100) 0%nat;
              PV_array_model.On_update (reading 7 101) 1%nat] two_slots in
  let w' := exec (PV_array._on_update count_calls_array
                    (disconnected 200) 1%nat) w in
  PV_array.__ok (PV_array.self w') = [true; false] /\
  result PV_array.all_ok w' = Return false /\
  PV_array.__value (PV_array.self w') = [5; 7] /\
  PV_array.__timestamp (PV_array.self w') = [100; 101].
Proof.
  intros w w'.
  assert (Hwf : PV_array_model.wf (PV_array.self w))
    by (vm_compute; tauto).
  assert (Hi : (1 < length (PV_array.names (PV_array.self w)))%nat)
    by (vm_compute; lia).
  destruct (PV_array_facts.update_overwrites_only_when_valid
              count_calls_array (disconnected 200) 1%nat w Hwf Hi)
    as (_ & _ & _ & _ & _ & Hinv).
  destruct (Hinv eq_refl) as (_ & Hv & Ht & _).
  subst w'. split_ands; [reflexivity|reflexivity| |].
  - rewrite Hv. reflexivity.
  - rewrite Ht. reflexivity.
Defined.

(** A [sync] whose read returns new values for both slots, after the
    monitor has delivered for slot 0 only: slot 0 keeps the monitor's
    reading and slot 1 takes the fetched one. *)
Lemma sync_writes_unseen_slots_only_witness :
  let w := exec (PV_array._on_update count_calls_array (reading 5 100) 0%nat)
             two_slots in
  let fetched := catools.Fetched [reading 6 150; reading 8 151] in
  PV_array_model.slot (PV_array.self (exec (PV_array.sync fetched) w)) 0%nat
    = PV_array_model.slot (PV_array.self w) 0%nat /\
  PV_array_model.slot (PV_array.self (exec (PV_array.sync fetched) w)) 1%nat
    = (Some 8, Some true, Some true, Some 151, Some 0, Some 0).
Proof.
  intros w fetched. split.
  - apply (PV_array_facts.sync_writes_unseen_slots_only fetched w 0%nat).
    reflexivity.
  - destruct (PV_array_facts.sync_writes_unseen_slots_only fetched w 1%nat)
      as [_ H].
    rewrite (H [reading 6 150; reading 8 151] (reading 8 151));
      [reflexivity|reflexivity|vm_compute; tauto|reflexivity|reflexivity].
Defined.

(** The claim C4 as it is written fails: after a reading and then a
    disconnect report for slot 1, [seen[1]] is set but the slot's
    timestamp is the reading's, not the most recent update's. *)
Lemma metadata_of_last_update_counterexample :
  ~ (forall (ops : list PV_array_model.op) (i : nat) (v : catools.value Z Z),
       let p := PV_array.self
                  (PV_array_model.run count_calls_array ops two_slots) in
       PV_array.seen p !! i = Some true ->
       PV_array_model.last_update count_calls_array (fun _ => true)
         ops two_slots i None = Some v ->
       PV_array.__ok p !! i = Some (catools.ok v) /\
       PV_array.__timestamp p !! i = Some (catools.timestamp v) /\
       PV_array.__severity p !! i = Some (catools.severity v) /\
       PV_array.__status p !! i = Some (catools.status v)).
Proof.
  intros H.
  specialize (H [PV_array_model.On_update (reading 7 100) 1%nat;
                 PV_array_model.On_update (disconnected 200) 1%nat]
                1%nat (disconnected 200) eq_refl eq_refl).
  destruct H as (_ & H & _). vm_compute in H. discriminate.
Qed.

Lemma slot_tracks_last_valid_update_witness :
  let ops := [PV_array_model.On_update (reading 7 100) 1%nat;
              PV_array_model.On_update (disconnected 200) 1%nat] in
  let p := PV_array.self
             (PV_array_model.run count_calls_array ops two_slots) in
  PV_array.__ok p !! 1%nat = Some false /\
  PV_array.__value p !! 1%nat = Some 7 /\
  PV_array.__timestamp p !! 1%nat = Some 100.
Proof.
  intros ops p.
  assert (Hi : (1 < length ["A"; "B"]%string)%nat) by (simpl; lia).
  destruct (PV_array_facts.slot_tracks_last_valid_update count_calls_array
              0 0 ["A"; "B"]%string 1 (Some tt) 0%nat ops 1%nat Hi)
    as (_ & Hok & Hmeta & _).
  split_ands.
  - exact (Hok (disconnected 200) eq_refl).
  - exact (proj1 Hmeta).
  - exact (proj1 (proj2 Hmeta)).
Defined.

Lemma sync_marks_all_seen_then_is_inert_witness :
  let values := [disconnected 150; reading 8 151] in
  let w' := exec (PV_array.sync (catools.Fetched values)) two_slots in
  PV_array.seen (PV_array.self w') = [true; true] /\
  PV_array.__ok (PV_array.self w') = [false; true] /\
  exec (PV_array.sync (catools.Fetched [reading 1 160; reading 2 161])) w'
    = w'.
Proof.
  intros values w'.
  assert (Hwf : PV_array_model.wf (PV_array.self two_slots))
    by (vm_compute; tauto).
  destruct (PV_array_facts.sync_marks_all_seen_then_is_inert
              (U := nat) values two_slots Hwf) as [_ H].
  destruct (H eq_refl) as [Hseen Hinert].
  split_ands; [exact Hseen|reflexivity|apply Hinert].
Defined.

(** The spec's scenario for C1: the source delivers 41 and then 42;
    [get] returns 42, and again 42, without waiting.  A cache that holds
    41 returns it after a [reset] too, and after a wait that took in 43
    it returns 43.  A cache made at time 0 with the default timeout,
    reset at time 60 with nothing delivered, waits in [get] as
    [get_next] does with the deadline 5. *)
Lemma get_returns_latest_update_witness :
  let w' := PV_model.deliver_all count_calls [41; 42] fresh_pv in
  let w1 := PV_model.run count_calls
              [PV_model.On_update 41; PV_model.Reset] fresh_pv in
  let w2 := PV_model.run count_calls
              [PV_model.On_update 41; PV_model.Get_next cothread.Forever true]
              (PV_model.fresh 0 "X"%string (Some tt) (cothread.Seconds 5)
                 0%nat 0 [(1, 43)]) in
  let w3 := PV_model.run count_calls [PV_model.Reset]
              (PV_model.fresh 0 "X"%string (Some tt) (cothread.Seconds 5)
                 0%nat 60 []) in
  PV.get count_calls w' = (Return 42, w') /\
  PV.get count_calls w1 = (Return 41, w1) /\
  PV.get count_calls w2 = (Return 43, w2) /\
  PV.get count_calls w3 =
  PV.get_next count_calls (cothread.Deadline 5) false w3.
Proof.
  intros w' w1 w2 w3.
  destruct (@PV_facts.get_returns_latest_update Z unit nat count_calls)
    as (Hpresent & Hith & Hlast & Hdeadline).
  split_ands.
  - exact (proj2 (Hith fresh_pv [41; 42] 1%nat 42 eq_refl)).
  - apply Hpresent. reflexivity.
  - exact (proj2 (Hlast (PV_model.fresh 0 "X"%string (Some tt)
                           (cothread.Seconds 5) 0%nat 0 [(1, 43)])
                    [PV_model.On_update 41;
                     PV_model.Get_next cothread.Forever true]
                    [41] 43 eq_refl)).
  - exact (proj2 (Hdeadline 0 "X"%string (Some tt) (cothread.Seconds 5)
                    0%nat 60 [] [PV_model.Reset]) eq_refl).
Defined.

Lemma reset_then_get_next_witness :
  let w := PV_model.deliver_all count_calls [41] fresh_pv in
  result (PV.get_next count_calls (cothread.Seconds 0) false)
    (exec PV.reset w) = Raise Timeout /\
  result (PV.get_next count_calls (cothread.Seconds 0) false)
    (exec (PV.deliver count_calls 42) (exec PV.reset w)) = Return 42.
Proof.
  intros w.
  destruct (PV_facts.reset_then_get_next count_calls w)
    as (Hnone & Hone & _).
  split.
  - apply Hnone. vm_compute. constructor.
  - unfold result. rewrite (Hone 42 (cothread.Seconds 0)). reflexivity.
Defined.

Lemma slots_never_return_to_unseen_witness :
  let w := exec (PV_array._on_update count_calls_array (reading 7 100) 1%nat)
             two_slots in
  let o := PV_array_model.On_update (disconnected 200) 1%nat in
  PV_array.seen
    (PV_array.self (PV_array_model.step count_calls_array o w)) !! 1%nat
    = Some true /\
  PV_array_model.state_of
    (PV_array.self (PV_array_model.step count_calls_array o w)) 1%nat
    = PV_array_model.Invalid /\
  PV_model.state_of (Z.leb 0)
    (PV_model.step count_calls PV_model.Reset
       (PV_model.deliver_all count_calls [41] fresh_pv))
    <> PV_model.Unseen.
Proof.
  intros w o.
  destruct (@Caches_facts.slots_never_return_to_unseen Z Z Z unit nat
              count_calls_array count_calls (Z.leb 0))
    as (Hseen & Hstate & Hpv & _).
  split_ands.
  - apply Hseen. reflexivity.
  - rewrite Hstate; [reflexivity|vm_compute; tauto|vm_compute; lia].
  - apply Hpv. vm_compute. discriminate.
Defined.

End Scenario_facts.


(** ** More of PV_array: bounds, callbacks, composition *)

Module PV_array_more.
Import PV_array_model.
Section PV_array_more.

Context {D T L U : Type}.
Variable call : L -> @PV_array.t D T L -> nat -> U -> U.

Local Abbreviation t := (@PV_array.t D T L).
Local Abbreviation World := (@PV_array.World D T L U).
Implicit Types (w : World) (p : t) (v : catools.value D T).

Lemma run_wf ops : forall w,
  wf (PV_array.self w) ->
  wf (PV_array.self (run call ops w)) /\
  PV_array.names (PV_array.self (run call ops w)) =
  PV_array.names (PV_array.self w).
Proof.
  induction ops as [|o rest IH]; intros w Hwf; simpl; [split; trivial|].
  destruct (PV_array_facts.step_wf call o w Hwf) as [Hwf' Hn].
  destruct (IH _ Hwf') as [H1 H2]. split; [exact H1|congruence].
Qed.

(** However the cache is used after [__init__], each of its arrays keeps
    one entry per name, and [get] returns that many values. *)
Theorem arrays_keep_one_entry_per_name (zero : D) (zero_time : T)
    (pvs : list string) (count : Z) (on_update : option L) (u : U)
    (ops : list op) :
  let w := run call ops (fresh zero zero_time pvs count on_update u) in
  PV_array.names (PV_array.self w) = pvs /\
  length (PV_array.seen (PV_array.self w)) = length pvs /\
  length (PV_array.__ok (PV_array.self w)) = length pvs /\
  length (PV_array.__timestamp (PV_array.self w)) = length pvs /\
  length (PV_array.__severity (PV_array.self w)) = length pvs /\
  length (PV_array.__status (PV_array.self w)) = length pvs /\
  exists values, PV_array.get w = (Return values, w) /\
                 length values = length pvs.
Proof.
  intros w. subst w.
  destruct (run_wf ops (fresh zero zero_time pvs count on_update u))
    as [(H1 & H2 & H3 & H4 & H5 & H6) Hn].
  { apply PV_array_facts.init_wf. }
  simpl in Hn. rewrite Hn in *. split_ands; try assumption; try reflexivity.
  eexists. split; [reflexivity|exact H1].
Qed.

(** An update for an index past the end of [seen] raises IndexError at
    the first store: nothing is written and the callback is not called. *)
Theorem on_update_out_of_range v index w :
  (length (PV_array.seen (PV_array.self w)) <= index)%nat ->
  PV_array._on_update call v index w = (Raise IndexError, w).
Proof.
  intros Hi. unfold PV_array._on_update, bind.
  rewrite PV_array_facts.update_one_out_of_range by exact Hi. reflexivity.
Qed.

(** The callback of [_on_update] is called once, with the index, on the
    cache as the update left it: it finds [seen[index]] set and
    [ok[index]] equal to [value.ok].  With no callback the user's state
    is untouched. *)
Theorem callback_sees_the_update v index w :
  wf (PV_array.self w) ->
  (index < length (PV_array.names (PV_array.self w)))%nat ->
  let w' := exec (PV_array._on_update call v index) w in
  PV_array.seen (PV_array.self w') !! index = Some true /\
  PV_array.__ok (PV_array.self w') !! index = Some (catools.ok v) /\
  PV_array.user w' =
    match PV_array.on_update (PV_array.self w) with
    | Some f => call f (PV_array.self w') index (PV_array.user w)
    | None => PV_array.user w
    end.
Proof.
  intros Hwf Hi w'. subst w'.
  pose proof (PV_array_facts.update_one_in_range v index w Hwf Hi) as Hu.
  unfold exec, PV_array._on_update, bind. rewrite Hu. simpl.
  assert (Hou : PV_array.on_update (updated v index (PV_array.self w)) =
                PV_array.on_update (PV_array.self w)).
  { unfold updated. destruct (catools.ok v); reflexivity. }
  rewrite Hou. destruct Hwf as (H1 & H2 & H3 & _).
  destruct (PV_array.on_update (PV_array.self w)); simpl; unfold updated;
    destruct (catools.ok v); simpl; split_ands; try reflexivity;
    apply list_lookup_insert_eq; lia.
Qed.

Lemma update_one_fields v index w :
  let p := PV_array.self w in
  let p' := PV_array.self (exec (PV_array._update_one v index) w) in
  (PV_array.names p', PV_array.on_update p', PV_array.count p',
   PV_array.shape p', PV_array.__monitors p') =
  (PV_array.names p, PV_array.on_update p, PV_array.count p,
   PV_array.shape p, PV_array.__monitors p).
Proof.
  destruct w as [p0 u]. cbv zeta.
  unfold exec, PV_array._update_one, bind, PV_array.setitem, ret.
  simpl.
  repeat (case_decide; simpl; try reflexivity);
    destruct (catools.ok v); simpl;
    repeat (case_decide; simpl; try reflexivity); reflexivity.
Qed.

Lemma sync_loop_fields values : forall k w,
  let p := PV_array.self w in
  let w' := exec (PV_array.sync_loop k values) w in
  PV_array.user w' = PV_array.user w /\
  (PV_array.names (PV_array.self w'), PV_array.on_update (PV_array.self w'),
   PV_array.count (PV_array.self w'), PV_array.shape (PV_array.self w'),
   PV_array.__monitors (PV_array.self w')) =
  (PV_array.names p, PV_array.on_update p, PV_array.count p,
   PV_array.shape p, PV_array.__monitors p).
Proof.
  induction values as [|x rest IH]; intros k w; cbv zeta; simpl;
    [split; reflexivity|].
  rewrite exec_bind, PV_array_facts.getitem_result,
    PV_array_facts.getitem_exec.
  destruct (PV_array.seen (PV_array.self w) !! k) as [[|]|]; simpl;
    [apply IH| |split; reflexivity].
  rewrite exec_bind.
  pose proof (PV_array_facts.update_one_user x k w) as Hu.
  pose proof (update_one_fields x k w) as Hf. cbv zeta in Hf.
  destruct (result (PV_array._update_one x k) w);
    [|split; assumption..].
  destruct (IH (S k) (exec (PV_array._update_one x k) w)) as [H1 H2].
  split; congruence.
Qed.

(** [sync] never calls the callback, whatever it stores, and leaves the
    names, the callback, the count, the shape and the monitors as they
    were. *)
Theorem sync_is_silent fetched w :
  let p := PV_array.self w in
  let w' := exec (PV_array.sync fetched) w in
  PV_array.user w' = PV_array.user w /\
  (PV_array.names (PV_array.self w'), PV_array.on_update (PV_array.self w'),
   PV_array.count (PV_array.self w'), PV_array.shape (PV_array.self w'),
   PV_array.__monitors (PV_array.self w')) =
  (PV_array.names p, PV_array.on_update p, PV_array.count p,
   PV_array.shape p, PV_array.__monitors p).
Proof.
  destruct fetched as [values|e]; cbv zeta; simpl.
  - apply sync_loop_fields.
  - split; reflexivity.
Qed.

Lemma sync_loop_result values : forall k w,
  wf (PV_array.self w) ->
  (k <= length (PV_array.names (PV_array.self w)))%nat ->
  result (PV_array.sync_loop k values) w =
  if decide (k + length values <= length (PV_array.names (PV_array.self w)))%nat
  then Return tt else Raise IndexError.
Proof.
  induction values as [|x rest IH]; intros k w Hwf Hk; simpl.
  - rewrite decide_True by lia. reflexivity.
  - rewrite result_bind, PV_array_facts.getitem_result,
      PV_array_facts.getitem_exec.
    assert (Hlen : length (PV_array.seen (PV_array.self w)) =
                   length (PV_array.names (PV_array.self w))).
    { destruct Hwf as (_ & H2 & _). exact H2. }
    destruct (PV_array.seen (PV_array.self w) !! k) as [b|] eqn:Hs.
    + apply lookup_lt_Some in Hs.
      assert (Hlt : (k < length (PV_array.names (PV_array.self w)))%nat)
        by lia.
      destruct b; simpl.
      * rewrite result_bind. unfold result at 1, exec, ret. simpl.
        rewrite IH by (assumption || lia).
        repeat case_decide; try reflexivity; lia.
      * rewrite result_bind. unfold result at 1, exec.
        rewrite (PV_array_facts.update_one_in_range x k w Hwf Hlt). simpl.
        rewrite IH.
        -- simpl. rewrite PV_array_facts.names_updated.
           repeat case_decide; try reflexivity; lia.
        -- simpl. apply PV_array_facts.updated_wf. exact Hwf.
        -- simpl. rewrite PV_array_facts.names_updated. lia.
    + apply lookup_ge_None in Hs. rewrite decide_False by lia. reflexivity.
Qed.

(** On a cache whose arrays have one entry per name, [sync] returns when
    the read came back with no more values than there are names, and
    raises IndexError, from reading [seen] past its end, when it came
    back with more. *)
Theorem sync_raises_only_past_the_end values w :
  wf (PV_array.self w) ->
  result (PV_array.sync (catools.Fetched values)) w =
  if decide (length values <= length (PV_array.names (PV_array.self w)))%nat
  then Return tt else Raise IndexError.
Proof.
  intros Hwf. simpl. rewrite sync_loop_result by (assumption || lia).
  reflexivity.
Qed.

Lemma on_update_self_wf v i w :
  wf (PV_array.self w) ->
  PV_array.self (exec (PV_array._on_update call v i) w) =
  if decide (i < length (PV_array.names (PV_array.self w)))%nat
  then updated v i (PV_array.self w) else PV_array.self w.
Proof.
  intros Hwf. rewrite PV_array_facts.on_update_self. unfold exec.
  case_decide as Hi.
  - rewrite (PV_array_facts.update_one_in_range v i w Hwf Hi). reflexivity.
  - rewrite PV_array_facts.update_one_out_of_range; [reflexivity|].
    destruct Hwf as (_ & H2 & _). lia.
Qed.

Lemma on_update_wf v i w :
  wf (PV_array.self w) ->
  wf (PV_array.self (exec (PV_array._on_update call v i) w)) /\
  PV_array.names (PV_array.self (exec (PV_array._on_update call v i) w)) =
  PV_array.names (PV_array.self w).
Proof. apply (PV_array_facts.step_wf call (On_update v i)). Qed.

Lemma updated_commute v x i j p :
  i <> j -> updated v i (updated x j p) = updated x j (updated v i p).
Proof.
  intros Hne. unfold updated.
  destruct (catools.ok v), (catools.ok x); simpl; f_equal;
    apply list_insert_insert_ne; auto.
Qed.

(** Updates for different slots commute: the cache ends up the same
    whichever of the two the source delivers first. *)
Theorem updates_of_different_slots_commute v x i j w :
  wf (PV_array.self w) ->
  i <> j ->
  PV_array.self (exec (PV_array._on_update call x j)
                   (exec (PV_array._on_update call v i) w)) =
  PV_array.self (exec (PV_array._on_update call v i)
                   (exec (PV_array._on_update call x j) w)).
Proof.
  intros Hwf Hne.
  destruct (on_update_wf v i w Hwf) as [Hwi Hni].
  destruct (on_update_wf x j w Hwf) as [Hwj Hnj].
  rewrite (on_update_self_wf x j _ Hwi), (on_update_self_wf v i _ Hwj).
  rewrite Hni, Hnj.
  rewrite (on_update_self_wf v i w Hwf), (on_update_self_wf x j w Hwf).
  repeat case_decide; try reflexivity.
  symmetry. apply updated_commute. exact Hne.
Qed.

(** A valid update leaves nothing of the update the slot had before it,
    and delivering an update a second time changes nothing. *)
Theorem update_replaces_the_slot v x i w :
  wf (PV_array.self w) ->
  (catools.ok v = true ->
   PV_array.self (exec (PV_array._on_update call v i)
                    (exec (PV_array._on_update call x i) w)) =
   PV_array.self (exec (PV_array._on_update call v i) w)) /\
  PV_array.self (exec (PV_array._on_update call v i)
                   (exec (PV_array._on_update call v i) w)) =
  PV_array.self (exec (PV_array._on_update call v i) w).
Proof.
  intros Hwf.
  destruct (on_update_wf v i w Hwf) as [Hwv Hnv].
  destruct (on_update_wf x i w Hwf) as [Hwx Hnx].
  split.
  - intros Hok.
    rewrite (on_update_self_wf v i _ Hwx), Hnx.
    rewrite (on_update_self_wf x i w Hwf), (on_update_self_wf v i w Hwf).
    case_decide; [|reflexivity].
    unfold updated. rewrite Hok.
    destruct (catools.ok x); simpl; f_equal; apply list_insert_insert_eq.
  - rewrite (on_update_self_wf v i _ Hwv), Hnv.
    rewrite (on_update_self_wf v i w Hwf).
    case_decide; [|reflexivity].
    unfold updated.
    destruct (catools.ok v) eqn:Hok; simpl; f_equal;
      apply list_insert_insert_eq.
Qed.

(** [all_ok] is true exactly when every slot has been delivered an
    update and the most recent one of each was valid; so it is false as
    long as one slot has had none. *)
Theorem all_ok_iff_every_slot_valid (zero : D) (zero_time : T)
    (pvs : list string) (count : Z) (on_update : option L) (u : U)
    (ops : list op) :
  let w0 := fresh zero zero_time pvs count on_update u in
  result PV_array.all_ok (run call ops w0) = Return true <->
  forall i, (i < length pvs)%nat ->
    exists v, last_update call (fun _ => true) ops w0 i None = Some v /\
              catools.ok v = true.
Proof.
  intros w0.
  assert (Hwf0 : wf (PV_array.self w0)) by apply PV_array_facts.init_wf.
  destruct (run_wf ops w0 Hwf0) as [(_ & _ & Hlen & _) Hn].
  simpl in Hn. rewrite Hn in Hlen.
  assert (Htr : forall i, (i < length pvs)%nat ->
    PV_array.__ok (PV_array.self (run call ops w0)) !! i =
    Some (match last_update call (fun _ => true) ops w0 i None with
          | Some v => catools.ok v
          | None => false
          end)).
  { intros i Hi.
    destruct (PV_array_facts.run_tracks call zero zero_time i ops w0 None None)
      as [_ Hslot]; [exact Hwf0|exact Hi|discriminate| |].
    - unfold slot, tracked_slot; simpl.
      rewrite !lookup_replicate_2 by exact Hi. reflexivity.
    - unfold slot, tracked_slot in Hslot.
      destruct (last_update call catools.ok ops w0 i None);
        injection Hslot as _ _ H3 _ _ _; exact H3. }
  unfold result, PV_array.all_ok, gets. simpl. split.
  - intros [= Hall] i Hi. specialize (Htr i Hi).
    rewrite forallb_forall in Hall.
    destruct (last_update call (fun _ => true) ops w0 i None) as [v|].
    + exists v. split; [reflexivity|].
      apply (Hall (catools.ok v)).
      apply list_elem_of_In, list_elem_of_lookup. eauto.
    + exfalso.
      assert (Hf : id false = true).
      { apply Hall, list_elem_of_In, list_elem_of_lookup. eauto. }
      discriminate.
  - intros Hall. f_equal. apply forallb_forall. intros b Hb.
    apply list_elem_of_In, list_elem_of_lookup in Hb. destruct Hb as [i Hb].
    assert (Hi : (i < length pvs)%nat).
    { apply lookup_lt_Some in Hb. lia. }
    destruct (Hall i Hi) as (v & Hv & Hok).
    rewrite (Htr i Hi), Hv, Hok in Hb. injection Hb as <-. reflexivity.
Qed.

End PV_array_more.
End PV_array_more.


(** ** More of PV: what a wait returns and when the first [get] gives up *)

Module PV_more.
Import PV_model.
Section PV_more.

Context {V L U : Type}.
Variable call : L -> @PV.t V L -> U -> U.

Local Abbreviation World := (@PV.World V L U).
Local Abbreviation State := (@PV.State V L U).
Implicit Types (w : World) (s : State) (v : V).

Lemma on_update_coherent v s : coherent (PV._WeakMethod call v s).
Proof.
  unfold coherent, PV._WeakMethod, exec.
  rewrite PV_facts.on_update_exec. simpl. trivial.
Qed.

(** A wait ends with the event and the stored value still in step, and
    what it returns is what is stored. *)
Lemma wait_coherent until queue : forall now s,
  coherent s ->
  let r := cothread.wait_until (fun s => PV.__event (PV.self s))
             (PV._WeakMethod call) until queue now s in
  coherent (cothread.obj (snd r)) /\
  forall v, fst r = Return v ->
            PV.__value (PV.self (cothread.obj (snd r))) = Some v.
Proof.
  induction queue as [|[time u] rest IH]; intros now s Hs; cbv zeta; simpl.
  - destruct (PV.__event (PV.self s)) as [x|] eqn:He; simpl.
    + split; [exact Hs|]. intros v [= <-]. apply Hs, He.
    + destruct until; simpl; (split; [exact Hs|discriminate]).
  - destruct (PV.__event (PV.self s)) as [x|] eqn:He; simpl.
    + split; [exact Hs|]. intros v [= <-]. apply Hs, He.
    + destruct (cothread.expired until time); simpl.
      * split; [exact Hs|discriminate].
      * apply IH, on_update_coherent.
Qed.

Lemma get_next_coherent timeout r w :
  coherent (cothread.obj w) ->
  coherent (cothread.obj (exec (PV.get_next call timeout r) w)) /\
  forall v, result (PV.get_next call timeout r) w = Return v ->
            value_of (exec (PV.get_next call timeout r) w) = Some v.
Proof.
  intros Hs. unfold exec, result, PV.get_next, bind, cothread.Wait, value_of.
  destruct r; simpl.
  - apply wait_coherent. unfold coherent. simpl. discriminate.
  - apply wait_coherent. exact Hs.
Qed.

Lemma step_coherent (o : op) w :
  coherent (cothread.obj w) -> coherent (cothread.obj (step call o w)).
Proof.
  intros Hs. destruct o as [v| |timeout r| |]; simpl.
  - unfold exec. rewrite PV_facts.deliver_exec. simpl.
    apply on_update_coherent.
  - unfold exec, PV.get.
    destruct (PV.__value (PV.self (cothread.obj w))); [exact Hs|].
    apply (get_next_coherent _ false w Hs).
  - apply (get_next_coherent timeout r w Hs).
  - unfold coherent. simpl. discriminate.
  - exact Hs.
Qed.

Lemma run_coherent ops : forall w,
  coherent (cothread.obj w) -> coherent (cothread.obj (run call ops w)).
Proof.
  induction ops as [|o rest IH]; intros w Hs; simpl; [exact Hs|].
  apply IH, step_coherent, Hs.
Qed.

(** However the cache has been used since [__init__], a value that
    [get_next] returns is the value the cache then holds: a [get] that
    follows returns it too, at once. *)
Theorem get_next_returns_the_cached_value (now : Z) (pv : string)
    (on_update : option L) (timeout : cothread.timeout) (u : U) (clock : Z)
    (arrivals : list (Z * V)) (ops : list op)
    (t : cothread.timeout) (r : bool) v :
  let w := run call ops (fresh now pv on_update timeout u clock arrivals) in
  result (PV.get_next call t r) w = Return v ->
  let w' := exec (PV.get_next call t r) w in
  PV.get call w' = (Return v, w').
Proof.
  intros w Hr w'. apply PV_facts.get_present.
  apply (get_next_coherent t r w); [|exact Hr].
  apply run_coherent. unfold coherent. simpl. discriminate.
Qed.

(** [get_next] with [reset] set never returns a value that was already
    there: what it returns is the first update to arrive, and that one
    arrived before the timeout expired. *)
Theorem get_next_reset_returns_first_arrival (timeout : cothread.timeout)
    w v :
  result (PV.get_next call timeout true) w = Return v ->
  exists time rest,
    cothread.arrivals w = (time, v) :: rest /\
    cothread.expired (cothread.expiry (cothread.clock w) timeout) time = false.
Proof.
  unfold result, PV.get_next, bind, cothread.Wait. simpl.
  destruct (cothread.arrivals w) as [|[time u] rest]; simpl.
  - destruct (cothread.expiry (cothread.clock w) timeout); discriminate.
  - destruct (cothread.expired _ time) eqn:He; [discriminate|].
    rewrite (PV_facts.wait_signalled _ _ _ _ _ _ u).
    + simpl. intros [= <-]. eauto.
    + unfold PV._WeakMethod, exec. rewrite PV_facts.on_update_exec.
      reflexivity.
Qed.

(** The first [get], on a cache with no value yet, waits for the first
    update when that arrives by the deadline, returns its value and
    leaves it stored: the next [get] returns it without waiting. *)
Theorem first_get_waits_for_first_update w (time d : Z) v
    (rest : list (Z * V)) :
  value_of w = None ->
  PV.__event (PV.self (cothread.obj w)) = None ->
  PV.__deadline (PV.self (cothread.obj w)) = cothread.Deadline d ->
  cothread.arrivals w = (time, v) :: rest ->
  time <= d ->
  let w' := {| cothread.obj := exec (PV._on_update call v) (cothread.obj w);
               cothread.clock := Z.max (cothread.clock w) time;
               cothread.arrivals := rest |} in
  PV.get call w = (Return v, w') /\ PV.get call w' = (Return v, w').
Proof.
  intros Hv He Hd Hq Hdue w'. split.
  - unfold PV.get. unfold value_of in Hv. rewrite Hv, Hd.
    unfold PV.get_next, bind, ret, cothread.Wait. rewrite Hq. simpl.
    rewrite He.
    replace (d <? time) with false by (symmetry; apply Z.ltb_ge; lia).
    apply PV_facts.wait_signalled.
    unfold PV._WeakMethod, exec. rewrite PV_facts.on_update_exec.
    reflexivity.
  - apply PV_facts.get_present. unfold value_of, w', exec. simpl.
    rewrite PV_facts.on_update_exec. reflexivity.
Qed.

(** The deadline of the first [get] is fixed when the cache is made: on
    a cache made at [now] with a timeout of [seconds], with no update
    due by [now + seconds], [get] raises Timeout, whatever the clock
    shows when it is called, and leaves the cache without a value. *)
Theorem first_get_gives_up_at_construction_deadline (now seconds : Z)
    (pv : string) (on_update : option L) (u : U) (clock : Z)
    (arrivals : list (Z * V)) :
  Forall (fun a => now + seconds < a.1) arrivals ->
  PV.get call
    (fresh now pv on_update (cothread.Seconds seconds) u clock arrivals) =
  (Raise Timeout,
   fresh now pv on_update (cothread.Seconds seconds) u
     (Z.max clock (now + seconds)) arrivals).
Proof.
  intros Hlate. unfold PV.get, fresh. simpl.
  unfold PV.get_next, bind, ret, cothread.Wait. simpl.
  destruct arrivals as [|[time v] rest]; simpl; [reflexivity|].
  apply Forall_cons_1 in Hlate. destruct Hlate as [Hlate _]. simpl in Hlate.
  replace (now + seconds <? time) with true
    by (symmetry; apply Z.ltb_lt; lia).
  reflexivity.
Qed.

End PV_more.
End PV_more.

(** ** More scenarios *)

Module Scenario_more.
Import Scenario.

Lemma on_update_out_of_range_witness :
  PV_array._on_update count_calls_array (reading 9 100) 2%nat two_slots =
  (Raise IndexError, two_slots).
Proof.
  apply (PV_array_more.on_update_out_of_range count_calls_array).
  vm_compute. lia.
Defined.

Lemma callback_sees_the_update_witness :
  PV_array.user
    (exec (PV_array._on_update count_calls_array (disconnected 200) 1%nat)
       two_slots) = 1%nat.
Proof.
  assert (Hwf : PV_array_model.wf (PV_array.self two_slots))
    by (vm_compute; tauto).
  assert (Hi : (1 < length (PV_array.names (PV_array.self two_slots)))%nat)
    by (vm_compute; lia).
  destruct (PV_array_more.callback_sees_the_update count_calls_array
              (disconnected 200) 1%nat two_slots Hwf Hi) as (_ & _ & Hu).
  rewrite Hu. reflexivity.
Defined.

Lemma sync_raises_only_past_the_end_witness :
  result (PV_array.sync (catools.Fetched
            [reading 1 100; reading 2 101; reading 3 102])) two_slots =
  Raise IndexError /\
  result (PV_array.sync (catools.Fetched [reading 1 100])) two_slots =
  Return tt.
Proof.
  assert (Hwf : PV_array_model.wf (PV_array.self two_slots))
    by (vm_compute; tauto).
  split.
  - rewrite (PV_array_more.sync_raises_only_past_the_end
               (U := nat) _ two_slots Hwf). reflexivity.
  - rewrite (PV_array_more.sync_raises_only_past_the_end
               (U := nat) _ two_slots Hwf). reflexivity.
Defined.

Lemma updates_of_different_slots_commute_witness :
  PV_array.self
    (exec (PV_array._on_update count_calls_array (disconnected 200) 1%nat)
       (exec (PV_array._on_update count_calls_array (reading 5 100) 0%nat)
          two_slots)) =
  PV_array.self
    (exec (PV_array._on_update count_calls_array (reading 5 100) 0%nat)
       (exec (PV_array._on_update count_calls_array (disconnected 200) 1%nat)
          two_slots)).
Proof.
  symmetry.
  apply (PV_array_more.updates_of_different_slots_commute count_calls_array).
  - vm_compute; tauto.
  - lia.
Defined.

Lemma update_replaces_the_slot_witness :
  PV_array.self
    (exec (PV_array._on_update count_calls_array (reading 7 101) 1%nat)
       (exec (PV_array._on_update count_calls_array (reading 5 100) 1%nat)
          two_slots)) =
  PV_array.self
    (exec (PV_array._on_update count_calls_array (reading 7 101) 1%nat)
       two_slots).
Proof.
  assert (Hwf : PV_array_model.wf (PV_array.self two_slots))
    by (vm_compute; tauto).
  destruct (PV_array_more.update_replaces_the_slot count_calls_array
              (reading 7 101) (reading 5 100) 1%nat two_slots Hwf) as [H _].
  apply H. reflexivity.
Defined.

(** The spec's scenario: three slots, updates for 1 and 0 only:
    [all_ok] is false. *)
Lemma all_ok_iff_every_slot_valid_witness :
  result PV_array.all_ok
    (PV_array_model.run count_calls_array
       [PV_array_model.On_update (reading 5 100) 1%nat;
        PV_array_model.On_update (reading 6 101) 0%nat]
       (PV_array_model.fresh 0 0 ["A"; "B"; "C"]%string 1 (Some tt) 0%nat))
  <> Return true.
Proof.
  intros H.
  pose proof (PV_array_more.all_ok_iff_every_slot_valid count_calls_array
                0 0 ["A"; "B"; "C"]%string 1 (Some tt) 0%nat
                [PV_array_model.On_update (reading 5 100) 1%nat;
                 PV_array_model.On_update (reading 6 101) 0%nat]) as Hiff.
  cbv zeta in Hiff. destruct Hiff as [Hto _].
  destruct (Hto H 2%nat) as (v & Hv & _); [simpl; lia|].
  vm_compute in Hv. discriminate.
Defined.

Lemma get_next_returns_the_cached_value_witness :
  let w := PV_model.run count_calls
             [PV_model.On_update 41; PV_model.Reset; PV_model.On_update 42]
             (PV_model.fresh 0 "X"%string (Some tt) (cothread.Seconds 5)
                0%nat 0 []) in
  PV.get count_calls
    (exec (PV.get_next count_calls (cothread.Seconds 0) false) w) =
  (Return 42, exec (PV.get_next count_calls (cothread.Seconds 0) false) w).
Proof.
  intros w.
  apply (PV_more.get_next_returns_the_cached_value count_calls 0 "X"%string
           (Some tt) (cothread.Seconds 5) 0%nat 0 []
           [PV_model.On_update 41; PV_model.Reset; PV_model.On_update 42]
           (cothread.Seconds 0) false 42).
  reflexivity.
Defined.

Lemma get_next_reset_returns_first_arrival_witness :
  let w := PV_model.run count_calls [PV_model.On_update 41]
             (PV_model.fresh 0 "X"%string (Some tt) (cothread.Seconds 5)
                0%nat 0 [(1, 42); (2, 43)]) in
  exists time rest, cothread.arrivals w = (time, 42) :: rest /\
    cothread.expired
      (cothread.expiry (cothread.clock w) (cothread.Seconds 3)) time = false.
Proof.
  intros w.
  apply (PV_more.get_next_reset_returns_first_arrival count_calls
           (cothread.Seconds 3) w 42).
  reflexivity.
Defined.

(** The spec's scenario: a cache on "X" with no value; the source
    delivers 42 after one second; [get] returns 42, and so does the
    next [get], without waiting. *)
Lemma first_get_waits_for_first_update_witness :
  let w := PV_model.fresh 0 "X"%string (Some tt) (cothread.Seconds 5)
             0%nat 0 [(1, 42)] in
  exists w', PV.get count_calls w = (Return 42, w') /\
             PV.get count_calls w' = (Return 42, w') /\
             cothread.clock w' = 1.
Proof.
  intros w. eexists. 
  destruct (PV_more.first_get_waits_for_first_update count_calls w 1 5 42 [])
    as [H1 H2]; try reflexivity; [lia|].
  split_ands; [exact H1|exact H2|reflexivity].
Defined.

Lemma first_get_gives_up_at_construction_deadline_witness :
  result (PV.get count_calls)
    (PV_model.fresh 0 "X"%string (Some tt) (cothread.Seconds 5)
       0%nat 60 [(70, 42)]) = Raise Timeout.
Proof.
  unfold result.
  rewrite (PV_more.first_get_gives_up_at_construction_deadline count_calls).
  - reflexivity.
  - repeat constructor.
Defined.

End Scenario_more.
